(** * PWA notification demo: the dispatch route and the service worker

    A shallow embedding of
    - [src/app/api/notify/route.ts]: the [POST] handler that stores push
      subscriptions in the module-level array [pushSubscriptions] and fans a
      notification payload out to every stored subscription;
    - [src/service-worker.js]: the [push] and [notificationclick] listeners.

    JavaScript values that come out of [JSON.parse] are modelled by [Js.json];
    [undefined] is the [None] of [Js.value].  The handlers run in a small
    state-and-exception monad; calls into the platform (the web-push transport,
    [showNotification], the window clients) are recorded in a log. *)

From Stdlib Require Import ZArith String Ascii List Lia Permutation DecimalString.
From stdpp Require Import base list strings.

Local Open Scope string_scope.
Local Open Scope list_scope.
Set Warnings "-register-all".

(** ** JavaScript values and the operators the two files use *)

Module Js.

Inductive json : Type :=
| JNull
| JBool (b : bool)
| JNum (n : Z)          (* JSON numbers; the integer-valued ones are modelled *)
| JStr (s : string)
| JArr (items : list json)
| JObj (fields : list (string * json)).   (* own properties, keys distinct *)

(** A JavaScript value obtained from JSON data; [None] is [undefined]. *)
Definition value : Type := option json.

(** What a [throw] (or a rejected promise) carries: an instance of [Error]
    with its [message], an instance of [Error] that also has a [statusCode]
    field (the errors of web-push, see line 216 of the route), or some other
    value. *)
Inductive thrown : Type :=
| ErrorObj (message : string)
| StatusError (message : string) (statusCode : Z)
| NonError.

(** Outcome of evaluating an expression or awaiting a promise. [Pending] is a
    promise that never settles. *)
Inductive result (A : Type) : Type :=
| Ok (a : A)
| Throws (e : thrown)
| Pending.
Arguments Ok {A} a.
Arguments Throws {A} e.
Arguments Pending {A}.

(** ToBoolean. *)
Definition truthy (v : value) : bool :=
  match v with
  | None => false
  | Some JNull => false
  | Some (JBool b) => b
  | Some (JNum n) => negb (n =? 0)%Z
  | Some (JStr s) => negb (String.eqb s "")
  | Some (JArr _) => true
  | Some (JObj _) => true
  end.

Fixpoint assoc {A : Type} (k : string) (fs : list (string * A)) : option A :=
  match fs with
  | [] => None
  | (k', v) :: rest => if String.eqb k k' then Some v else assoc k rest
  end.

(** Message of the TypeError V8 raises for a property read on [null] or
    [undefined]. *)
Definition read_of_nullish (v : value) (k : string) : string :=
  ("Cannot read properties of "
   ++ (match v with None => "undefined" | Some _ => "null" end)
   ++ " (reading '" ++ k ++ "')")%string.

(** [o.k] for the property names the two files read ([subscription], [type],
    [endpoint], [data], [url], [title], [tag]): an own property of an object,
    [undefined] on any other non-nullish value, a TypeError on [null] and
    [undefined]. *)
Definition get (o : value) (k : string) : result value :=
  match o with
  | None | Some JNull => Throws (ErrorObj (read_of_nullish o k))
  | Some (JObj fs) => Ok (assoc k fs)
  | Some _ => Ok None
  end.

(** [o?.k] *)
Definition get_opt (o : value) (k : string) : value :=
  match o with
  | Some (JObj fs) => assoc k fs
  | _ => None
  end.

(** [a === b]. Objects and arrays compare by reference; two values read from
    different parsed bodies are never the same reference. *)
Definition strict_eq (a b : value) : bool :=
  match a, b with
  | None, None => true
  | Some JNull, Some JNull => true
  | Some (JBool x), Some (JBool y) => Bool.eqb x y
  | Some (JNum x), Some (JNum y) => (x =? y)%Z
  | Some (JStr x), Some (JStr y) => String.eqb x y
  | _, _ => false
  end.

(** [a || b] *)
Definition or_else (a b : value) : value := if truthy a then a else b.

(** [s.includes(pat)] *)
Fixpoint includes (s pat : string) : bool :=
  String.prefix pat s
  || match s with
     | EmptyString => false
     | String _ rest => includes rest pat
     end.

Definition of_nat (n : nat) : string := NilZero.string_of_uint (Nat.to_uint n).

(** ToString of a parsed value, as a template literal and a property key
    apply it. An object converts through its [toString] member: with an own
    [toString] field, which parsed data cannot make callable, the conversion
    throws; otherwise [Object.prototype.toString] answers. An array converts
    through [join], which converts its elements in turn, [null] to the empty
    string. A number is written in decimal, as JavaScript writes the
    integers below 10^21. *)
Fixpoint to_string (j : json) : result string :=
  match j with
  | JNull => Ok "null"
  | JBool true => Ok "true"
  | JBool false => Ok "false"
  | JNum n => Ok (NilZero.string_of_int (Z.to_int n))
  | JStr s => Ok s
  | JArr items =>
      match
        (fix elements (l : list json) : result (list string) :=
           match l with
           | [] => Ok []
           | x :: rest =>
               match (match x with JNull => Ok "" | _ => to_string x end) with
               | Ok s =>
                   match elements rest with
                   | Ok ss => Ok (s :: ss)
                   | Throws e => Throws e
                   | Pending => Pending
                   end
               | Throws e => Throws e
               | Pending => Pending
               end
           end) items
      with
      | Ok ss => Ok (String.concat "," ss)
      | Throws e => Throws e
      | Pending => Pending
      end
  | JObj fs =>
      match assoc "toString" fs with
      | Some _ => Throws (ErrorObj "Cannot convert object to primitive value")
      | None => Ok "[object Object]"
      end
  end.

(** The same for a value that may be [undefined]. *)
Definition to_property_key (v : value) : result string :=
  match v with
  | Some j => to_string j
  | None => Ok "undefined"
  end.

(** Property write on an object literal under construction: an existing key
    keeps its place. *)
Fixpoint set_field (k : string) (v : json) (fs : list (string * json))
  : list (string * json) :=
  match fs with
  | [] => [(k, v)]
  | (k', v') :: rest =>
      if String.eqb k k' then (k, v) :: rest else (k', v') :: set_field k v rest
  end.

Fixpoint indexed {A : Type} (i : nat) (l : list A) : list (nat * A) :=
  match l with
  | [] => []
  | x :: rest => (i, x) :: indexed (S i) rest
  end.

Fixpoint chars (s : string) : list string :=
  match s with
  | EmptyString => []
  | String c rest => String c EmptyString :: chars rest
  end.

(** The own enumerable properties copied by [...v] inside an object literal. *)
Definition own_fields (v : value) : list (string * json) :=
  match v with
  | Some (JObj fs) => fs
  | Some (JArr items) => List.map (fun '(i, x) => (of_nat i, x)) (indexed 0 items)
  | Some (JStr s) => List.map (fun '(i, c) => (of_nat i, JStr c)) (indexed 0 (chars s))
  | _ => []
  end.

(** [{ ...target, ...v }] *)
Definition spread (target : list (string * json)) (v : value) : list (string * json) :=
  fold_left (fun acc '(k, x) => set_field k x acc) (own_fields v) target.

(** An object literal whose property values may be [undefined]; such
    properties disappear when the object is serialised. *)
Definition literal (fs : list (string * value)) : json :=
  JObj (omap (fun '(k, v) => match v with Some j => Some (k, j) | None => None end) fs).

End Js.

Import Js.

(** ** [src/app/api/notify/route.ts] *)

Module Route.

(** The global array [pushSubscriptions] together with the log of calls to
    [webpush.sendNotification(subscription, JSON.stringify(payload))]. One
    request runs to completion on this state; no other request is interleaved
    at its awaits. *)
Record World : Type := {
  pushSubscriptions : list value;
  sendLog : list (value * option json)
}.

(** What the push service answers to one [sendNotification] call. *)
Inductive SendOutcome : Type :=
| Delivered
| Rejected (error : thrown).

(** The network during one request: the answer to the attempt made for the
    subscription at each index, and the order in which the attempts settle. *)
Record Net : Type := {
  outcome : nat -> SendOutcome;
  completion : list nat
}.

(** [await request.json()] *)
Inductive RequestBody : Type :=
| BadJson (message : string)
| Body (j : json).

(** [NextResponse.json(payload, { status })]; the status defaults to 200. *)
Record Response : Type := {
  status : Z;
  payload : json
}.

(** State and exceptions of the handler. *)
Definition M (A : Type) : Type := World -> result A * World.

Definition ret {A : Type} (a : A) : M A := fun w => (Ok a, w).

Definition bind {A B : Type} (m : M A) (k : A -> M B) : M B :=
  fun w =>
    match m w with
    | (Ok a, w') => k a w'
    | (Throws e, w') => (Throws e, w')
    | (Pending, w') => (Pending, w')
    end.

Definition lift {A : Type} (r : result A) : M A := fun w => (r, w).

Definition try_catch {A : Type} (m : M A) (handler : thrown -> M A) : M A :=
  fun w =>
    match m w with
    | (Throws e, w') => handler e w'
    | r => r
    end.

Definition read_subscriptions : M (list value) :=
  fun w => (Ok (pushSubscriptions w), w).

Definition write_subscriptions (l : list value) : M unit :=
  fun w => (Ok tt, {| pushSubscriptions := l; sendLog := sendLog w |}).

Definition log_send (subscription : value) (text : option json) : M unit :=
  fun w => (Ok tt, {| pushSubscriptions := pushSubscriptions w;
                      sendLog := sendLog w ++ [(subscription, text)] |}).

Notation "'let*' x ':=' m 'in' k" := (bind m (fun x => k))
  (at level 10, x name, m at level 100, k at level 200).

(** [arr.findIndex(p)], with -1 for no match. *)
Fixpoint findIndex_from (p : value -> result bool) (l : list value) (i : Z)
  : result Z :=
  match l with
  | [] => Ok (-1)%Z
  | x :: rest =>
      match p x with
      | Ok true => Ok i
      | Ok false => findIndex_from p rest (i + 1)%Z
      | Throws e => Throws e
      | Pending => Pending
      end
  end.

Definition findIndex (p : value -> result bool) (l : list value) : result Z :=
  findIndex_from p l 0%Z.

(** [sub => sub.endpoint === subscription.endpoint] *)
Definition same_endpoint (subscription sub : value) : result bool :=
  match get sub "endpoint" with
  | Ok a =>
      match get subscription "endpoint" with
      | Ok b => Ok (strict_eq a b)
      | Throws e => Throws e
      | Pending => Pending
      end
  | Throws e => Throws e
  | Pending => Pending
  end.

Definition count_of (l : list value) : json := JNum (Z.of_nat (length l)).

(** Lines 36-61: the request carries a subscription and no type. *)
Definition store_subscription (subscription : value) : M Response :=
  let* subs := read_subscriptions in
  let* existingIndex := lift (findIndex (same_endpoint subscription) subs) in
  let* _ := (if (0 <=? existingIndex)%Z
             then write_subscriptions (<[Z.to_nat existingIndex := subscription]> subs)
             else write_subscriptions (subs ++ [subscription])) in
  let* stored := read_subscriptions in
  ret {| status := 200;
         payload := literal [("message", Some (JStr "Subscription stored successfully"));
                             ("subscriptionsCount", Some (count_of stored))] |}.

Definition action (name title : string) (icon : option string) : json :=
  literal [("action", Some (JStr name)); ("title", Some (JStr title));
           ("icon", option_map JStr icon)].

Definition catalog_entry (title body tag url : string) (actions : list json) : json :=
  JObj [("title", JStr title); ("body", JStr body);
        ("icon", JStr "/icon-192x192.svg"); ("badge", JStr "/icon-192x192.svg");
        ("tag", JStr tag);
        ("data", JObj [("url", JStr url); ("type", JStr tag)]);
        ("actions", JArr actions)].

(** Lines 84-151. *)
Definition notificationPayloads : list (string * json) :=
  [("new_match",
    catalog_entry "A New Spark! ✨" "You've matched with someone special!"
      "new_match" "/chats?new_match=true"
      [action "view" "View Match" (Some "/icon-192x192.svg");
       action "dismiss" "Later" None]);
   ("new_message",
    catalog_entry "New Message 💬" "Someone sent you a message."
      "new_message" "/chats/123"
      [action "view" "Read Now" (Some "/icon-192x192.svg");
       action "dismiss" "Later" None]);
   ("chat_expiry",
    catalog_entry "Time's Ticking! ⏰" "A chat is about to expire. Don't miss out!"
      "chat_expiry" "/chats/456"
      [action "view" "Open Chat" (Some "/icon-192x192.svg");
       action "dismiss" "Dismiss" None])].

(** [JSON.stringify(notificationPayloads[key])], as the value the text
    denotes. A key that is not an own property of the table reads
    [Object.prototype]: its members are functions, whose serialisation is
    [undefined], except [__proto__], the prototype object itself, serialised
    as an empty object. *)
Definition payload_text (key : string) : option json :=
  match assoc key notificationPayloads with
  | Some p => Some p
  | None => if String.eqb key "__proto__" then Some (JObj []) else None
  end.

(** The object one [sendPromises] element resolves to. [shouldRemove] absent
    is [false]: the only use of the property is a truthiness test. *)
Record SendResult : Type := {
  success : bool;
  index : nat;
  shouldRemove : bool
}.

(** Lines 168-169. *)
Definition is_gone (error : thrown) : bool :=
  match error with
  | ErrorObj message => includes message "410" || includes message "expired"
  | StatusError message _ => includes message "410" || includes message "expired"
  | NonError => false
  end.

(** Lines 157-175: what the async callback resolves to once the transport
    has answered. *)
Definition settle (o : SendOutcome) (i : nat) : SendResult :=
  match o with
  | Delivered => {| success := true; index := i; shouldRemove := false |}
  | Rejected error =>
      if is_gone error
      then {| success := false; index := i; shouldRemove := true |}
      else {| success := false; index := i; shouldRemove := false |}
  end.

Fixpoint all_filled {A : Type} (slots : list (option A)) : option (list A) :=
  match slots with
  | [] => Some []
  | None :: _ => None
  | Some a :: rest =>
      match all_filled rest with
      | Some l => Some (a :: l)
      | None => None
      end
  end.

(** [Promise.all] over [n] promises, the [i]-th resolving to [resolved i]:
    each settlement writes its slot, and the aggregate resolves with the
    slots once every one is filled. *)
Definition promise_all {A : Type} (n : nat) (resolved : nat -> A)
    (completion : list nat) : result (list A) :=
  let slots :=
    fold_left (fun vals i => <[i := Some (resolved i)]> vals) completion
      (replicate n None) in
  match all_filled slots with
  | Some values => Ok values
  | None => Pending
  end.

(** [arr.sort(cmp)]: a stable insertion sort driven by the comparator. *)
Fixpoint sort_insert (cmp : nat -> nat -> Z) (x : nat) (l : list nat) : list nat :=
  match l with
  | [] => [x]
  | y :: rest =>
      if (cmp x y <=? 0)%Z then x :: l else y :: sort_insert cmp x rest
  end.

Definition sort (cmp : nat -> nat -> Z) (l : list nat) : list nat :=
  fold_right (sort_insert cmp) [] l.

(** Line 184: [(a, b) => b - a]. *)
Definition descending (a b : nat) : Z := (Z.of_nat b - Z.of_nat a)%Z.

(** Lines 181-184. *)
Definition invalidIndices (results : list SendResult) : list nat :=
  sort descending (List.map index (List.filter shouldRemove results)).

(** Lines 186-188: [splice(index, 1)] for each index in turn. *)
Definition prune (indices : list nat) (subs : list value) : list value :=
  fold_left (fun l i => delete i l) indices subs.

Fixpoint log_sends (subs : list value) (text : option json) : M unit :=
  match subs with
  | [] => ret tt
  | subscription :: rest =>
      let* _ := log_send subscription text in log_sends rest text
  end.

(** Lines 67-71: a subscription sent along with the type is stored when
    nothing is stored yet. *)
Definition adopt_subscription (subscription : value) : M unit :=
  let* before := read_subscriptions in
  if (length before =? 0)%nat && truthy subscription
  then write_subscriptions (before ++ [subscription])
  else ret tt.

(** Lines 156-178: [await Promise.all(sendPromises)] over [n] subscriptions. *)
Definition fan_out (net : Net) (n : nat) : result (list SendResult) :=
  promise_all n (fun i => settle (outcome net i) i) (completion net).

(** Lines 64-202: the request carries a type. The template literal of line
    73 converts the type to a string, which can throw; line 153 uses the
    same conversion for the property key. *)
Definition send_notifications (net : Net) (notificationType subscription : value)
  : M Response :=
  let* _ := adopt_subscription subscription in
  let* key := lift (to_property_key notificationType) in
  let* subs := read_subscriptions in
  if (length subs =? 0)%nat
  then ret {| status := 400;
              payload := literal [("error", Some (JStr "No subscriptions found"))] |}
  else
    let* _ := log_sends subs (payload_text key) in
    let* results := lift (fan_out net (length subs)) in
    let* _ := write_subscriptions (prune (invalidIndices results) subs) in
    let successCount := length (List.filter success results) in
    let failureCount := (length results - successCount)%nat in
    let* remaining := read_subscriptions in
    ret {| status := 200;
           payload := literal [("message", Some (JStr "Notification sent successfully"));
                               ("type", notificationType);
                               ("sent", Some (JNum (Z.of_nat successCount)));
                               ("failed", Some (JNum (Z.of_nat failureCount)));
                               ("totalSubscriptions", Some (count_of remaining))] |}.

Definition request_json (request : RequestBody) : result value :=
  match request with
  | BadJson message => Throws (ErrorObj message)
  | Body j => Ok (Some j)
  end.

(** Lines 210-228. *)
Definition internal_error (error : thrown) : M Response :=
  ret {| status := 500;
         payload := literal [("error", Some (JStr "Internal server error"));
                             ("details",
                              Some (JStr (match error with
                                          | ErrorObj message => message
                                          | StatusError message _ => message
                                          | NonError => "Unknown error"
                                          end)))] |}.

(** [export async function POST(request)] *)
Definition POST (request : RequestBody) (net : Net) : M Response :=
  try_catch
    (let* body := lift (request_json request) in
     let* subscription := lift (get body "subscription") in
     let* type := lift (get body "type") in
     if truthy subscription && negb (truthy type)
     then store_subscription subscription
     else if truthy type
     then send_notifications net type subscription
     else ret {| status := 400;
                 payload := literal [("error",
                   Some (JStr "Invalid request body - neither subscription nor type found"))] |})
    internal_error.

(** Running one request against a store, with an empty log. *)
Definition handle (request : RequestBody) (net : Net) (store : list value)
  : result Response * World :=
  POST request net {| pushSubscriptions := store; sendLog := [] |}.

(** The environment variables read at lines 18-19 and 242-243; [None] is an
    unset variable. *)
Record Env : Type := {
  NEXT_PUBLIC_VAPID_PUBLIC_KEY : option string;
  VAPID_PRIVATE_KEY : option string
}.

(** [v || d] for a string that may be unset. *)
Definition string_or (v : option string) (d : string) : string :=
  match v with
  | Some s => if String.eqb s "" then d else s
  | None => d
  end.

(** Lines 17-20. Keys are base64url text, one byte per character. *)
Definition publicKey (env : Env) : string :=
  string_or (NEXT_PUBLIC_VAPID_PUBLIC_KEY env)
    "BJCYodv-yqhixo9_SoE68bwivX2NJzb14b5tCJXi5c_m0VswyAwcsn0eqbw8_BChGzhZahWbDx8na3WfKFfXlQk".

Definition privateKey (env : Env) : string :=
  string_or (VAPID_PRIVATE_KEY env) "HTaM3wa6t9rIM5Xn5ey2I1blg44PhdpKzJzkvxGrDZo".

(** [s.substring(0, 10)] *)
Definition preview (s : string) : string := String.substring 0 10 s.

(** [n || 0] and [s || 'undefined'] of lines 237-243. *)
Definition length_or_zero (s : string) : json := JNum (Z.of_nat (String.length s)).

Definition preview_or_undefined (s : option string) : json :=
  JStr (string_or (option_map preview s) "undefined").

(** Lines 23-27: [webpush.setVapidDetails] runs when the module is loaded
    and throws for keys it does not accept; the handlers exist only when it
    returned. The function is web-push's: it answers the error it throws, if
    any, for a subject, a public key and a private key. *)
Definition load (setVapidDetails : string -> string -> string -> option thrown)
    (env : Env) : result unit :=
  match setVapidDetails "mailto:shivankkunwar100@gmail.com"
          (publicKey env) (privateKey env) with
  | Some e => Throws e
  | None => Ok tt
  end.

(** Lines 232-246: [export async function GET()], of a module that loaded. *)
Definition GET (env : Env) (w : World) : Response :=
  {| status := 200;
     payload :=
       literal
         [("message", Some (JStr "Notification API is running"));
          ("subscriptionsCount", Some (count_of (pushSubscriptions w)));
          ("vapidConfigured",
           Some (JBool (negb (String.eqb (publicKey env) "YOUR_VAPID_PUBLIC_KEY"))));
          ("publicKeyLength", Some (length_or_zero (publicKey env)));
          ("publicKeyPreview", Some (preview_or_undefined (Some (publicKey env))));
          ("privateKeyLength", Some (length_or_zero (privateKey env)));
          ("privateKeyPreview", Some (preview_or_undefined (Some (privateKey env))));
          ("envVarsRaw",
           Some (literal
                   [("public",
                     Some (preview_or_undefined (NEXT_PUBLIC_VAPID_PUBLIC_KEY env)));
                    ("private",
                     Some (preview_or_undefined (VAPID_PRIVATE_KEY env)))]))] |}.

End Route.

(** ** [src/service-worker.js] *)

Module ServiceWorker.

(** [event.data] of a push event, when present: [event.data.json()] either
    throws or yields the parsed body. *)
Inductive PushMessageData : Type :=
| Unparseable (message : string)
| Parses (j : json).

(** One call [self.registration.showNotification(title, options)]. *)
Record Shown : Type := {
  title : value;
  options : json
}.

Definition json_of (d : PushMessageData) : result json :=
  match d with
  | Unparseable message => Throws (ErrorObj message)
  | Parses j => Ok j
  end.

(** Lines 73-79. *)
Definition defaultOptions : list (string * json) :=
  [("icon", JStr "/icon-192x192.svg");
   ("badge", JStr "/icon-192x192.svg");
   ("vibrate", JArr [JNum 200; JNum 100; JNum 200]);
   ("requireInteraction", JBool true);
   ("renotify", JBool true)].

(** [v || d] for a default [d] that is a constant. *)
Definition or_default (v : value) (d : json) : json :=
  match or_else v (Some d) with
  | Some j => j
  | None => d
  end.

(** Lines 66-99, the body of the [try]. The two diagnostic reads [data.tag]
    and [data.title] of line 70 come first and throw on a [null] body. *)
Definition show_parsed (d : PushMessageData) : result Shown :=
  match json_of d with
  | Ok data =>
      match get (Some data) "tag" with
      | Ok _ =>
          let inner := get_opt (Some data) "data" in
          let preserved :=
            spread [("url", or_default (get_opt inner "url") (JStr "/"));
                    ("type", or_default (get_opt inner "type") (JStr "unknown"))]
                   inner in
          Ok {| title := or_else (get_opt (Some data) "title")
                                 (Some (JStr "New Notification"));
                options := JObj (set_field "data" (JObj preserved)
                                   (spread defaultOptions (Some data))) |}
      | Throws e => Throws e
      | Pending => Pending
      end
  | Throws e => Throws e
  | Pending => Pending
  end.

(** Lines 104-111. *)
Definition fallback : Shown :=
  {| title := Some (JStr "New Notification");
     options := JObj [("body", JStr "You have a new notification");
                      ("icon", JStr "/icon-192x192.svg");
                      ("badge", JStr "/icon-192x192.svg");
                      ("data", JObj [("url", JStr "/")])] |}.

(** The [push] listener: the notifications it shows. *)
Definition on_push (event_data : option PushMessageData) : list Shown :=
  match event_data with
  | None => []
  | Some d =>
      match show_parsed d with
      | Ok shown => [shown]
      | Throws _ => [fallback]
      | Pending => []
      end
  end.

(** A client returned by [clients.matchAll]: whether it has a [focus]
    member, its [url], and how the promises of [focus()] and [navigate()]
    settle. *)
Record Client : Type := {
  has_focus : bool;
  url : string;
  focus_outcome : result unit;
  navigate_outcome : result unit
}.

(** The [clients] object during one click: how [matchAll] settles, and
    [openWindow] when the member exists, with how its promise settles. *)
Record Clients : Type := {
  matchAll : result (list Client);
  openWindow : option (result unit)
}.

(** Calls made on the notification and on the window clients. *)
Inductive Call : Type :=
| NotificationClose
| ClientFocus (i : nat)
| ClientNavigate (i : nat) (target : json)
| OpenWindow (target : json).

(** What one [notificationclick] did: the calls in order, the errors the
    [catch] of the handler logged (line 169), the rejections that reached
    the [unhandledrejection] listener (line 189), and the promise handed to
    [event.waitUntil], if any. The two logs are kept apart: which of their
    lines is written first depends on when the promises reject. *)
Record Click : Type := {
  calls : list Call;
  caught : list thrown;
  unhandled : list thrown;
  waited : option (result unit)
}.

Definition rejection_line (r : result unit) : list thrown :=
  match r with
  | Throws e => [e]
  | _ => []
  end.

(** Lines 146-160: the loop over [clientList], from index [i]: the calls,
    the rejection of [focus()], which nothing handles, and the promise the
    callback returns. [None] when the loop ends without returning. *)
Fixpoint focus_existing (urlToOpen : json) (clientList : list Client) (i : nat)
  : option (list Call * list thrown * result unit) :=
  match clientList with
  | [] => None
  | client :: rest =>
      if has_focus client
      then
        if negb (strict_eq (Some (JStr (url client))) (Some urlToOpen))
        then Some ([ClientFocus i; ClientNavigate i urlToOpen],
                   rejection_line (focus_outcome client),
                   navigate_outcome client)
        else Some ([ClientFocus i], rejection_line (focus_outcome client), Ok tt)
      else focus_existing urlToOpen rest (S i)
  end.

(** Lines 142-167: the [then] callback. *)
Definition open_app (env : Clients) (urlToOpen : json) (clientList : list Client)
  : list Call * list thrown * result unit :=
  match focus_existing urlToOpen clientList 0 with
  | Some run => run
  | None =>
      match openWindow env with
      | Some opened => ([OpenWindow urlToOpen], [], opened)
      | None => ([], [], Ok tt)
      end
  end.

(** Line 133: [data.url || '/'] with [data = notification.data || {}]; the
    read cannot throw because [data] is truthy. *)
Definition urlToOpen (notification_data : value) : json :=
  or_default (get_opt (or_else notification_data (Some (JObj []))) "url") (JStr "/").

(** The [notificationclick] listener. *)
Definition on_notificationclick (env : Clients) (notification_data : value)
    (action : string) : Click :=
  if String.eqb action "dismiss"
  then {| calls := [NotificationClose]; caught := []; unhandled := [];
          waited := None |}
  else
    match matchAll env with
    | Ok clientList =>
        let '(made, rejections, settled) :=
          open_app env (urlToOpen notification_data) clientList in
        match settled with
        | Throws e =>
            {| calls := NotificationClose :: made;
               caught := [e];
               unhandled := rejections;
               waited := Some (Ok tt) |}
        | r =>
            {| calls := NotificationClose :: made;
               caught := [];
               unhandled := rejections;
               waited := Some r |}
        end
    | Throws e =>
        {| calls := [NotificationClose];
           caught := [e];
           unhandled := [];
           waited := Some (Ok tt) |}
    | Pending =>
        {| calls := [NotificationClose]; caught := []; unhandled := [];
           waited := Some Pending |}
    end.

(** *** Install, activate and fetch (lines 8-54)

    The Cache API is the platform's: a cache maps the URL of a GET request to
    a response, [caches] holds the named caches in creation order,
    [caches.match] answers from the first cache that has the URL, and
    [cache.addAll] stores either every response or none. The listeners that
    [precacheAndRoute] registers (line 6) are workbox's and not modelled. *)

Record HttpResponse : Type := {
  ok : bool;
  content : string
}.

Record Request : Type := {
  method : string;
  address : string
}.

Definition Cache : Type := list (string * HttpResponse).
Definition CacheStorage : Type := list (string * Cache).

(** [fetch(request)] *)
Definition Network : Type := Request -> result HttpResponse.

Definition CACHE_NAME : string := "pwa-notification-demo-v1".

Definition urlsToCache : list string :=
  ["/"; "/manifest.json"; "/icon-192x192.svg"; "/icon-512x512.svg"].

(** [caches.open(name)]: the cache is created when it does not exist. *)
Definition caches_open (name : string) (caches : CacheStorage) : CacheStorage :=
  match assoc name caches with
  | Some _ => caches
  | None => caches ++ [(name, [])]
  end.

(** [cache.put(url, response)]: an entry for the same URL is replaced. *)
Fixpoint cache_put (address : string) (response : HttpResponse) (cache : Cache)
  : Cache :=
  match cache with
  | [] => [(address, response)]
  | (a, r) :: rest =>
      if String.eqb address a then (address, response) :: rest
      else (a, r) :: cache_put address response rest
  end.

Fixpoint update_cache (name : string) (f : Cache -> Cache) (caches : CacheStorage)
  : CacheStorage :=
  match caches with
  | [] => []
  | (n, c) :: rest =>
      if String.eqb name n then (n, f c) :: rest
      else (n, c) :: update_cache name f rest
  end.

(** One request of [cache.addAll]: a response that is not ok counts as a
    failure. *)
Definition fetch_ok (network : Network) (u : string) : result HttpResponse :=
  match network {| method := "GET"; address := u |} with
  | Ok response =>
      if ok response then Ok response else Throws (ErrorObj "Request failed")
  | Throws e => Throws e
  | Pending => Pending
  end.

(** The responses [cache.addAll(urls)] fetched, when every request succeeded.
    One failure rejects the whole call, also while other requests are still
    pending; of several failures the first in the list is reported. *)
Fixpoint fetch_all (network : Network) (urls : list string)
  : result (list (string * HttpResponse)) :=
  match urls with
  | [] => Ok []
  | u :: rest =>
      match fetch_ok network u, fetch_all network rest with
      | Throws e, _ => Throws e
      | _, Throws e => Throws e
      | Pending, _ => Pending
      | _, Pending => Pending
      | Ok response, Ok fetched => Ok ((u, response) :: fetched)
      end
  end.

(** Lines 17-27: the promise given to [event.waitUntil] and the caches
    afterwards. *)
Definition on_install (network : Network) (caches : CacheStorage)
  : result unit * CacheStorage :=
  let opened := caches_open CACHE_NAME caches in
  match fetch_all network urlsToCache with
  | Ok fetched =>
      (Ok tt,
       update_cache CACHE_NAME
         (fun cache => fold_left (fun c '(u, r) => cache_put u r c) fetched cache)
         opened)
  | Throws e => (Throws e, opened)
  | Pending => (Pending, opened)
  end.

(** Lines 30-44: the names handed to [caches.delete] and the caches
    afterwards. *)
Definition on_activate (caches : CacheStorage) : list string * CacheStorage :=
  (List.filter (fun name => negb (String.eqb name CACHE_NAME)) (List.map fst caches),
   List.filter (fun '(name, _) => String.eqb name CACHE_NAME) caches).

(** [caches.match(request)] *)
Fixpoint caches_match (request : Request) (caches : CacheStorage)
  : option HttpResponse :=
  match caches with
  | [] => None
  | (_, cache) :: rest =>
      match (if String.eqb (method request) "GET"
             then assoc (address request) cache else None) with
      | Some response => Some response
      | None => caches_match request rest
      end
  end.

(** Lines 47-54: the response given to [event.respondWith] and the requests
    sent to the network. *)
Definition on_fetch (network : Network) (caches : CacheStorage) (request : Request)
  : result HttpResponse * list Request :=
  match caches_match request caches with
  | Some response => (Ok response, [])
  | None => (network request, [request])
  end.

End ServiceWorker.

(** ** [src/app/components/InstallPWAButton.tsx] *)

Module InstallButton.

(** ASCII [toLowerCase]; user-agent strings are ASCII. *)
Definition lower (c : ascii) : ascii :=
  let n := nat_of_ascii c in
  if (65 <=? n)%nat && (n <=? 90)%nat then ascii_of_nat (n + 32) else c.

Fixpoint toLowerCase (s : string) : string :=
  match s with
  | EmptyString => EmptyString
  | String c rest => String (lower c) (toLowerCase rest)
  end.

(** Lines 57-65; [None] is a missing [window]. *)
Definition detectIOS (userAgent : option string) : bool :=
  match userAgent with
  | None => false
  | Some ua =>
      let userAgent := toLowerCase ua in
      let isIOSDevice :=
        includes userAgent "ipad" || includes userAgent "iphone"
        || includes userAgent "ipod" in
      let isSafari :=
        includes userAgent "safari"
        && negb (includes userAgent "chrome" || includes userAgent "crios"
                 || includes userAgent "fxios") in
      isIOSDevice && isSafari
  end.

Inductive Choice : Type := Accepted | Dismissed.

(** The component: its three state variables, whether its two window
    listeners are registered, and the optional callback prop, which returns
    or throws. A [beforeinstallprompt] event is named by a number. *)
Record State : Type := {
  deferredPrompt : option nat;
  isIOS : bool;
  isInstallPromptUsed : bool;
  listening : bool
}.

Definition Callback : Type := option (Choice -> option thrown).

(** How the browser answers one click: [prompt()] rejects, [userChoice]
    rejects, or the user chooses. *)
Inductive PromptRun : Type :=
| PromptRejects (e : thrown)
| ChoiceRejects (e : thrown)
| Chose (c : Choice).

Inductive Event : Type :=
| BeforeInstallPrompt (id : nat)
| AppInstalled
| Click (run : PromptRun)
| Unmount.

Inductive Effect : Type :=
| PreventDefault (id : nat)
| Prompt (id : nat)
| Called (c : Choice)
| Warned
| LoggedError (e : thrown).

(** Lines 44-50 and 52-109: the state once the effect has run. *)
Definition mounted (userAgent : option string) : State :=
  {| deferredPrompt := None;
     isIOS := detectIOS userAgent;
     isInstallPromptUsed := false;
     listening := negb (detectIOS userAgent) |}.

(** Lines 155-181: whether the button is rendered. *)
Definition rendered (s : State) : bool :=
  if isIOS s then false
  else match deferredPrompt s with
       | None => false
       | Some _ => negb (isInstallPromptUsed s)
       end.

(** Lines 115-148. *)
Definition handleInstallClick (callback : Callback) (run : PromptRun) (s : State)
  : State * list Effect :=
  match deferredPrompt s with
  | None => (s, [Warned])
  | Some id =>
      match run with
      | PromptRejects e => (s, [Prompt id; LoggedError e])
      | ChoiceRejects e => (s, [Prompt id; LoggedError e])
      | Chose c =>
          let cleared :=
            {| deferredPrompt := None;
               isIOS := isIOS s;
               isInstallPromptUsed :=
                 match c with
                 | Accepted => true
                 | Dismissed => isInstallPromptUsed s
                 end;
               listening := listening s |} in
          match callback with
          | None => (cleared, [Prompt id])
          | Some f =>
              match f c with
              | None => (cleared, [Prompt id; Called c])
              | Some e => (s, [Prompt id; Called c; LoggedError e])
              end
          end
      end
  end.

(** One event; a click reaches the handler only through a rendered button,
    and runs to completion before the next event. *)
Definition step (callback : Callback) (s : State) (event : Event)
  : State * list Effect :=
  match event with
  | BeforeInstallPrompt id =>
      if listening s
      then ({| deferredPrompt := Some id;
               isIOS := isIOS s;
               isInstallPromptUsed := isInstallPromptUsed s;
               listening := listening s |},
            [PreventDefault id])
      else (s, [])
  | AppInstalled =>
      if listening s
      then ({| deferredPrompt := None;
               isIOS := isIOS s;
               isInstallPromptUsed := true;
               listening := listening s |},
            [])
      else (s, [])
  | Click run =>
      if rendered s then handleInstallClick callback run s else (s, [])
  | Unmount =>
      ({| deferredPrompt := deferredPrompt s;
          isIOS := isIOS s;
          isInstallPromptUsed := isInstallPromptUsed s;
          listening := false |},
       [])
  end.

Fixpoint run_events (callback : Callback) (s : State) (events : list Event)
  : State * list Effect :=
  match events with
  | [] => (s, [])
  | event :: rest =>
      let '(s', done) := step callback s event in
      let '(final, later) := run_events callback s' rest in
      (final, done ++ later)
  end.

End InstallButton.

(** ** [urlBase64ToUint8Array] of the page and of [src/public/test-push.html] *)

Module Page.

(** ['='.repeat(n)] *)
Fixpoint repeat_eq (n : nat) : string :=
  match n with
  | 0 => EmptyString
  | S n' => String "="%char (repeat_eq n')
  end.

(** [s.replace(/c/g, d)] for a single character. *)
Fixpoint replace_char (c d : ascii) (s : string) : string :=
  match s with
  | EmptyString => EmptyString
  | String x rest =>
      String (if Ascii.eqb x c then d else x) (replace_char c d rest)
  end.

Definition padding (base64String : string) : string :=
  repeat_eq ((4 - String.length base64String mod 4) mod 4).

(** The argument of [window.atob]. Keys are one byte per character. *)
Definition base64 (base64String : string) : string :=
  replace_char "_" "/" (replace_char "-" "+" (base64String ++ padding base64String)%string).

Fixpoint charCodes (rawData : string) : list Z :=
  match rawData with
  | EmptyString => []
  | String c rest => Z.of_nat (nat_of_ascii c) :: charCodes rest
  end.

(** The function, over the platform's [atob], which returns the decoded
    binary string or throws. *)
Definition urlBase64ToUint8Array (atob : string -> result string)
    (base64String : string) : result (list Z) :=
  match atob (base64 base64String) with
  | Ok rawData => Ok (charCodes rawData)
  | Throws e => Throws e
  | Pending => Pending
  end.

End Page.

Import Route.
Import ServiceWorker.

(** ** Vocabulary of the statements *)

(** The attempt succeeded. *)
Definition delivered (o : SendOutcome) : bool :=
  match o with
  | Delivered => true
  | Rejected _ => false
  end.

(** The attempt failed and the error says the endpoint is gone. *)
Definition reports_gone (o : SendOutcome) : bool :=
  match o with
  | Delivered => false
  | Rejected error => is_gone error
  end.




(** The entries of [l], numbered from [i], whose number is not [gone]. *)
Fixpoint retained (gone : nat -> bool) (i : nat) (l : list value) : list value :=
  match l with
  | [] => []
  | x :: rest =>
      if gone i then retained gone (S i) rest else x :: retained gone (S i) rest
  end.

(** The store the fan-out runs over: the store of the request after lines
    67-71. *)
Definition snapshot (store : list value) (subscription : value) : list value :=
  if (length store =? 0)%nat && truthy subscription
  then store ++ [subscription]
  else store.

(** S and K of a fan-out over [n] subscriptions. *)
Definition sent_count (net : Net) (n : nat) : nat :=
  length (List.filter (fun i => delivered (outcome net i)) (seq 0 n)).

Definition gone_count (net : Net) (n : nat) : nat :=
  length (List.filter (fun i => reports_gone (outcome net i)) (seq 0 n)).

(** The subscriptions whose attempt did not report the endpoint gone, in
    their stored order. *)
Definition survivors (net : Net) (subs : list value) : list value :=
  retained (fun i => reports_gone (outcome net i)) 0 subs.

(** One transport call per subscription, in stored order, all with the same
    payload text. *)
Definition attempts (key : string) (subs : list value)
  : list (value * option json) :=
  List.map (fun subscription => (subscription, payload_text key)) subs.

(** The response of lines 195-201. *)
Definition report (notificationType : value) (sent failed total : nat) : Response :=
  {| status := 200;
     payload := literal [("message", Some (JStr "Notification sent successfully"));
                         ("type", notificationType);
                         ("sent", Some (JNum (Z.of_nat sent)));
                         ("failed", Some (JNum (Z.of_nat failed)));
                         ("totalSubscriptions", Some (JNum (Z.of_nat total)))] |}.

(** [v.endpoint] for a stored (hence truthy) value. *)
Definition endpoint_of (v : value) : value := get_opt v "endpoint".

(** The test of line 43 on two stored values. *)
Definition matches (subscription sub : value) : bool :=
  strict_eq (endpoint_of sub) (endpoint_of subscription).

(** The index [findIndex] returns on a store of truthy values. *)
Fixpoint first_match (subscription : value) (l : list value) : option nat :=
  match l with
  | [] => None
  | x :: rest =>
      if matches subscription x then Some 0
      else option_map S (first_match subscription rest)
  end.

(** The store after a registration: the first record with the same endpoint
    is overwritten where it stands, otherwise the subscription goes last. *)
Fixpoint replace_or_append (subscription : value) (l : list value) : list value :=
  match l with
  | [] => [subscription]
  | x :: rest =>
      if matches subscription x then subscription :: rest
      else x :: replace_or_append subscription rest
  end.

(** No two stored records have strictly equal endpoints. *)
Fixpoint distinct_endpoints (l : list value) : Prop :=
  match l with
  | [] => True
  | x :: rest =>
      Forall (fun y => strict_eq (endpoint_of x) (endpoint_of y) = false) rest
      /\ distinct_endpoints rest
  end.

(** The response of lines 57-60. *)
Definition stored (count : nat) : Response :=
  {| status := 200;
     payload := JObj [("message", JStr "Subscription stored successfully");
                      ("subscriptionsCount", JNum (Z.of_nat count))] |}.

(** Stores that requests can produce, starting from the empty array the
    module is loaded with. *)
Inductive reachable : list value -> Prop :=
| reachable_init : reachable []
| reachable_step (request : RequestBody) (net : Net) (store : list value) :
    reachable store ->
    reachable (pushSubscriptions (snd (handle request net store))).

(** What C3 asks of a request: a client error, nothing sent, the store as
    it was. *)
Definition fails_fast (fields : list (string * json)) (net : Net)
    (store : list value) : Prop :=
  exists response world,
    handle (Body (JObj fields)) net store = (Ok response, world)
    /\ (400 <= status response < 500)%Z
    /\ sendLog world = []
    /\ pushSubscriptions world = store.

(** What C7 asks of a request with a malformed subscription: a client error
    and no new record. *)
Definition rejected_unstored (fields : list (string * json)) (net : Net)
    (store : list value) : Prop :=
  exists response world,
    handle (Body (JObj fields)) net store = (Ok response, world)
    /\ (400 <= status response < 500)%Z
    /\ pushSubscriptions world = store.

(** The event types of the catalog. *)
Definition known_event (t : string) : Prop :=
  In t (List.map fst notificationPayloads).

(** A type that is none of the catalog's three strings. *)
Definition outside_catalog (notificationType : value) : Prop :=
  forall t, known_event t -> notificationType <> Some (JStr t).

(** The response of lines 77-80. *)
Definition no_subscriptions : Response :=
  {| status := 400; payload := JObj [("error", JStr "No subscriptions found")] |}.

(** What every reachable store satisfies: no stored value is nullish or
    otherwise falsy, and endpoints are pairwise distinct. *)
Definition store_ok (store : list value) : Prop :=
  Forall (fun v => truthy v = true) store /\ distinct_endpoints store.

(** The error line the [catch] of the click handler writes for a promise. *)
Definition logged (r : result unit) : list thrown :=
  match r with
  | Throws e => [e]
  | _ => []
  end.

(** The message of the TypeError of a failed conversion to a string. *)
Definition unconvertible : string := "Cannot convert object to primitive value".

(** The character of the standard alphabet for one of the URL-safe one. *)
Definition standard_char (c : ascii) : ascii :=
  if Ascii.eqb c "-" then "+"%char
  else if Ascii.eqb c "_" then "/"%char
  else c.

(** The response of lines 205-208. *)
Definition invalid_body : Response :=
  {| status := 400;
     payload := JObj [("error",
       JStr "Invalid request body - neither subscription nor type found")] |}.

(** The response of lines 224-227 for an Error with the given message. *)
Definition server_error (details : string) : Response :=
  {| status := 500;
     payload := JObj [("error", JStr "Internal server error");
                      ("details", JStr details)] |}.

(** What one request can come to. *)
Inductive Handled (request : RequestBody) (net : Net) (store : list value)
  : result Response * World -> Prop :=
| handled_error (details : string) :
    Handled request net store
      (Ok (server_error details), {| pushSubscriptions := store; sendLog := [] |})
| handled_invalid :
    Handled request net store
      (Ok invalid_body, {| pushSubscriptions := store; sendLog := [] |})
| handled_stored (after : list value) :
    Handled request net store
      (Ok (stored (length after)), {| pushSubscriptions := after; sendLog := [] |})
| handled_empty :
    Handled request net store
      (Ok no_subscriptions, {| pushSubscriptions := store; sendLog := [] |})
| handled_unconvertible (fields : list (string * json)) :
    request = Body (JObj fields) ->
    truthy (assoc "type" fields) = true ->
    to_property_key (assoc "type" fields) = Throws (ErrorObj unconvertible) ->
    Handled request net store
      (Ok (server_error unconvertible),
       {| pushSubscriptions := snapshot store (assoc "subscription" fields);
          sendLog := [] |})
| handled_report (notificationType subscription : value) (key : string)
    (results : list SendResult) :
    fan_out net (length (snapshot store subscription)) = Ok results ->
    Handled request net store
      (Ok (report notificationType (length (List.filter success results))
             (length results - length (List.filter success results))
             (length (prune (invalidIndices results) (snapshot store subscription)))),
       {| pushSubscriptions :=
            prune (invalidIndices results) (snapshot store subscription);
          sendLog := attempts key (snapshot store subscription) |})
| handled_pending (subscription : value) (key : string) :
    fan_out net (length (snapshot store subscription)) = Pending ->
    Handled request net store
      (Pending,
       {| pushSubscriptions := snapshot store subscription;
          sendLog := attempts key (snapshot store subscription) |}).

(** Sample data for the statements at concrete requests. *)

Definition endpoint_record (endpoint keys : string) : value :=
  Some (JObj [("endpoint", JStr endpoint); ("keys", JStr keys)]).

Definition sample_store : list value :=
  [endpoint_record "E1" "k1"; endpoint_record "E2" "k2"; endpoint_record "E3" "k3"].

(** E1 is delivered, E2 is gone, E3 times out; E3 settles first. *)
Definition sample_net : Net :=
  {| outcome := fun i =>
       match i with
       | 0 => Delivered
       | 1 => Rejected (ErrorObj "Received 410 Gone")
       | _ => Rejected (ErrorObj "socket hang up")
       end;
     completion := [2; 0; 1] |}.


Definition quiet_net : Net :=
  {| outcome := fun _ => Delivered; completion := [0] |}.

Definition quiet_net_3 : Net :=
  {| outcome := fun _ => Delivered; completion := [0; 1; 2] |}.

Definition register_request (endpoint keys : string) : RequestBody :=
  Body (JObj [("subscription", JObj [("endpoint", JStr endpoint); ("keys", JStr keys)])]).

Definition sample_clients : list Client :=
  [{| has_focus := false; url := "https://app.example/worker";
      focus_outcome := Ok tt; navigate_outcome := Ok tt |};
   {| has_focus := true; url := "https://app.example/";
      focus_outcome := Ok tt; navigate_outcome := Throws (ErrorObj "navigation failed") |}].

(** Sample data for the further properties. *)

Definition iphone_safari : option string :=
  Some "Mozilla/5.0 (iPhone; CPU iPhone OS 17_0 like Mac OS X) AppleWebKit/605.1.15 (KHTML, like Gecko) Version/17.0 Mobile/15E148 Safari/604.1".

Definition online : Network :=
  fun request => Ok {| ok := true; content := address request |}.

Definition offline : Network :=
  fun _ => Throws (ErrorObj "Failed to fetch").

Definition manifest_missing : Network :=
  fun request =>
    if String.eqb (address request) "/manifest.json"
    then Ok {| ok := false; content := "Not Found" |}
    else online request.

Definition sample_push : list (string * json) :=
  [("title", JStr "Hello"); ("icon", JStr "/custom.svg");
   ("data", JObj [("url", JStr ""); ("chat", JNum 7)])].

Definition stalled_net : Net :=
  {| outcome := fun _ => Delivered; completion := [0; 1] |}.

(** A [setVapidDetails] that checks the length of the public key only: the
    87 characters that encode 65 bytes. *)
Definition checks_key_length (subject publicKey privateKey : string)
  : option thrown :=
  if (String.length publicKey =? 87)%nat then None
  else Some (ErrorObj "Vapid public key should be 65 bytes long when decoded.").

Definition prompt_ready : InstallButton.State :=
  {| InstallButton.deferredPrompt := Some 7;
     InstallButton.isIOS := false;
     InstallButton.isInstallPromptUsed := false;
     InstallButton.listening := true |}.

(** ** The fan-out: [Promise.all], the index sort and the pruning loop *)

Section PromiseAll.
Context {A : Type} (resolved : nat -> A).

Lemma all_filled_Some (l : list A) : all_filled (List.map Some l) = Some l.
Proof. induction l as [|a l IH]; simpl; [done|]. by rewrite IH. Qed.

Lemma settled_slots_lookup (completion : list nat) (vals : list (option A)) (j : nat) :
  fold_left (fun vals i => <[i := Some (resolved i)]> vals) completion vals !! j
  = if decide (j ∈ completion ∧ j < length vals)
    then Some (Some (resolved j)) else vals !! j.
Proof.
  revert vals. induction completion as [|i rest IH]; intros vals; cbn [fold_left].
  - destruct (decide (j ∈ [] ∧ j < length vals)) as [[H _]|_]; [|done].
    by apply elem_of_nil in H.
  - rewrite IH, length_insert.
    destruct (decide (j ∈ rest ∧ j < length vals)) as [[Hin Hlt]|Hout];
      destruct (decide (j ∈ i :: rest ∧ j < length vals)) as [[Hin' Hlt']|Hout'];
      try done.
    + exfalso. apply Hout'. split; [by right|done].
    + apply elem_of_cons in Hin' as [->|Hin']; [|exfalso; by apply Hout].
      by apply list_lookup_insert_eq.
    + destruct (decide (i = j)) as [->|Hne].
      * rewrite list_insert_ge; [done|].
        destruct (decide (j < length vals)); [|lia].
        exfalso. apply Hout'. split; [left|done].
      * by apply list_lookup_insert_ne.
Qed.

Lemma promise_all_settles (n : nat) (completion : list nat) :
  Permutation completion (seq 0 n) ->
  promise_all n resolved completion = Ok (List.map resolved (seq 0 n)).
Proof.
  intros Hperm. unfold promise_all.
  assert (fold_left (fun vals i => <[i := Some (resolved i)]> vals) completion
            (replicate n None) = List.map Some (List.map resolved (seq 0 n))) as ->.
  { apply list_eq. intros j. rewrite settled_slots_lookup, length_replicate.
    change (List.map Some (List.map resolved (seq 0 n)))
      with (Some <$> (resolved <$> seq 0 n)).
    rewrite !list_lookup_fmap.
    destruct (decide (j < n)) as [Hlt|Hge].
    - rewrite lookup_seq_lt by done. simpl.
      case_decide as H; [done|]. exfalso. apply H. split; [|done].
      rewrite Hperm. apply elem_of_seq. lia.
    - rewrite lookup_seq_ge by lia. simpl.
      case_decide as H; [lia|]. apply lookup_replicate_None. lia. }
  by rewrite all_filled_Some.
Qed.
End PromiseAll.


Section Pruning.
Variable gone : nat -> bool.

Lemma retained_snoc (l : list value) (x : value) (i : nat) :
  retained gone i (l ++ [x])
  = retained gone i l ++ (if gone (i + length l) then [] else [x]).
Proof.
  revert i. induction l as [|y l IH]; intros i; simpl.
  - by rewrite Nat.add_0_r.
  - rewrite IH. replace (S i + length l) with (i + S (length l)) by lia.
    by destruct (gone i).
Qed.

Lemma retained_length (l : list value) (i : nat) :
  length (retained gone i l) + length (List.filter gone (seq i (length l)))
  = length l.
Proof.
  revert i. induction l as [|y l IH]; intros i; simpl; [done|].
  specialize (IH (S i)). destruct (gone i); simpl; lia.
Qed.

Lemma sort_insert_below (x n : nat) (l : list nat) :
  x < n -> sort_insert descending x (n :: l) = n :: sort_insert descending x l.
Proof.
  intros Hlt. simpl. unfold descending at 1.
  destruct (Z.leb_spec (Z.of_nat n - Z.of_nat x) 0); [lia|done].
Qed.

Lemma sort_snoc_max (a : list nat) (n : nat) :
  Forall (fun x => x < n) a ->
  sort descending (a ++ [n]) = n :: sort descending a.
Proof.
  unfold sort. induction 1 as [|x a Hx _ IH]; simpl; [done|].
  rewrite IH. by apply sort_insert_below.
Qed.

Lemma filter_seq_below (n : nat) :
  Forall (fun x => x < n) (List.filter gone (seq 0 n)).
Proof.
  apply List.Forall_forall. intros x Hx. apply List.filter_In in Hx as [Hx _].
  apply List.in_seq in Hx. lia.
Qed.

Lemma prune_prefix (n : nat) (l : list value) :
  n <= length l ->
  prune (sort descending (List.filter gone (seq 0 n))) l
  = retained gone 0 (take n l) ++ drop n l.
Proof.
  revert l. induction n as [|n IH]; intros l Hn.
  - by rewrite take_0, drop_0.
  - destruct (lookup_lt_is_Some_2 l n) as [x Hx]; [lia|].
    rewrite seq_S, List.filter_app. simpl.
    rewrite (take_S_r l n x Hx), retained_snoc, length_take.
    replace (0 + n `min` length l) with n by lia.
    destruct (gone n) eqn:Hg.
    + rewrite sort_snoc_max by apply filter_seq_below.
      unfold prune. simpl. fold (prune (sort descending (List.filter gone (seq 0 n))) (delete n l)).
      rewrite IH by (rewrite length_delete by eauto; lia).
      rewrite delete_take_drop.
      rewrite take_app_length', drop_app_length' by (rewrite length_take; lia).
      by rewrite app_nil_r.
    + rewrite app_nil_r, IH by lia.
      rewrite <- app_assoc. simpl. by rewrite (drop_S l x n Hx).
Qed.

Lemma prune_retained (l : list value) :
  prune (sort descending (List.filter gone (seq 0 (length l)))) l
  = retained gone 0 l.
Proof.
  rewrite prune_prefix by done. by rewrite firstn_all, drop_all, app_nil_r.
Qed.
End Pruning.

Section FanOut.
Variable net : Net.

Lemma log_sends_run (subs : list value) (text : option json) (w : World) :
  log_sends subs text w
  = (Ok tt, {| pushSubscriptions := pushSubscriptions w;
               sendLog := sendLog w ++ List.map (fun s => (s, text)) subs |}).
Proof.
  revert w. induction subs as [|s subs IH]; intros w; simpl.
  - unfold ret. rewrite app_nil_r. by destruct w.
  - unfold bind, log_send. rewrite IH. simpl. by rewrite <- app_assoc.
Qed.

Lemma marked_indices (l : list nat) :
  List.map index (List.filter shouldRemove
                    (List.map (fun i => settle (outcome net i) i) l))
  = List.filter (fun i => reports_gone (outcome net i)) l.
Proof.
  induction l as [|i l IH]; simpl; [done|].
  unfold settle at 1, reports_gone at 1.
  destruct (outcome net i) as [|e]; simpl; [done|].
  destruct (is_gone e); simpl; by rewrite ?IH.
Qed.

Lemma success_count (l : list nat) :
  length (List.filter success (List.map (fun i => settle (outcome net i) i) l))
  = length (List.filter (fun i => delivered (outcome net i)) l).
Proof.
  induction l as [|i l IH]; simpl; [done|].
  unfold settle at 1, delivered at 1.
  destruct (outcome net i) as [|e]; simpl; [by rewrite IH|].
  by destruct (is_gone e).
Qed.

Lemma adopt_subscription_run (subscription : value) (store : list value)
    (lg : list (value * option json)) :
  adopt_subscription subscription {| pushSubscriptions := store; sendLog := lg |}
  = (Ok tt, {| pushSubscriptions := snapshot store subscription; sendLog := lg |}).
Proof.
  unfold adopt_subscription, snapshot, bind, read_subscriptions,
    write_subscriptions, ret. simpl.
  by destruct ((length store =? 0)%nat && truthy subscription).
Qed.

Lemma send_notifications_snapshot (notificationType subscription : value)
    (store : list value) (lg : list (value * option json)) :
  send_notifications net notificationType subscription
    {| pushSubscriptions := store; sendLog := lg |}
  = send_notifications net notificationType None
      {| pushSubscriptions := snapshot store subscription; sendLog := lg |}.
Proof.
  unfold send_notifications, bind at 1.
  rewrite adopt_subscription_run. symmetry. unfold bind at 1.
  rewrite adopt_subscription_run.
  replace (snapshot (snapshot store subscription) None)
    with (snapshot store subscription); [done|].
  generalize (snapshot store subscription). intros l. unfold snapshot.
  cbn [truthy]. by rewrite andb_false_r.
Qed.

Lemma send_notifications_unconvertible (notificationType subscription : value)
    (store : list value) (lg : list (value * option json)) (e : thrown) :
  to_property_key notificationType = Throws e ->
  send_notifications net notificationType subscription
    {| pushSubscriptions := store; sendLog := lg |}
  = (Throws e, {| pushSubscriptions := snapshot store subscription; sendLog := lg |}).
Proof.
  intros Hkey. unfold send_notifications, bind at 1.
  rewrite adopt_subscription_run. unfold bind at 1, lift. by rewrite Hkey.
Qed.

Lemma send_notifications_converted (notificationType subscription : value)
    (key : string) (store : list value) (lg : list (value * option json)) :
  let subs := snapshot store subscription in
  to_property_key notificationType = Ok key ->
  send_notifications net notificationType subscription
    {| pushSubscriptions := store; sendLog := lg |}
  = (if (length subs =? 0)%nat
     then ret no_subscriptions
     else
       let* _ := log_sends subs (payload_text key) in
       let* results := lift (fan_out net (length subs)) in
       let* _ := write_subscriptions (prune (invalidIndices results) subs) in
       let* remaining := read_subscriptions in
       ret (report notificationType (length (List.filter success results))
              (length results - length (List.filter success results))
              (length remaining)))
      {| pushSubscriptions := subs; sendLog := lg |}.
Proof.
  intros subs Hkey. unfold send_notifications, bind at 1.
  rewrite adopt_subscription_run. unfold bind at 1, lift at 1. rewrite Hkey.
  unfold bind at 1, read_subscriptions at 1. cbn [pushSubscriptions]. fold subs.
  by destruct (length subs =? 0)%nat.
Qed.

Lemma send_notifications_empty (notificationType subscription : value)
    (key : string) (store : list value) (lg : list (value * option json)) :
  to_property_key notificationType = Ok key ->
  snapshot store subscription = [] ->
  send_notifications net notificationType subscription
    {| pushSubscriptions := store; sendLog := lg |}
  = (Ok no_subscriptions, {| pushSubscriptions := store; sendLog := lg |}).
Proof.
  intros Hkey Hempty. rewrite (send_notifications_converted _ _ key) by done.
  rewrite Hempty. simpl. unfold ret. do 2 f_equal.
  unfold snapshot in Hempty.
  destruct ((length store =? 0)%nat && truthy subscription);
    [by destruct store|done].
Qed.

Lemma send_notifications_run (notificationType subscription : value)
    (key : string) (store : list value) (lg : list (value * option json)) :
  let subs := snapshot store subscription in
  to_property_key notificationType = Ok key ->
  subs <> [] ->
  Permutation (completion net) (seq 0 (length subs)) ->
  send_notifications net notificationType subscription
    {| pushSubscriptions := store; sendLog := lg |}
  = (Ok (report notificationType (sent_count net (length subs))
           (length subs - sent_count net (length subs))
           (length (survivors net subs))),
     {| pushSubscriptions := survivors net subs;
        sendLog := lg ++ attempts key subs |}).
Proof.
  intros subs Hkey Hne Hperm.
  rewrite (send_notifications_converted _ _ key) by done. fold subs.
  destruct (length subs =? 0)%nat eqn:Hlen;
    [apply Nat.eqb_eq in Hlen; by destruct subs|].
  unfold bind. rewrite log_sends_run. unfold lift, fan_out.
  rewrite (promise_all_settles _ _ _ Hperm). simpl.
  unfold invalidIndices. rewrite marked_indices.
  rewrite prune_retained.
  rewrite success_count, length_map, length_seq. done.
Qed.
End FanOut.

(** ** Requests that carry a type *)

Section Dispatch.
Variable net : Net.
Variable fields : list (string * json).

Let notificationType : value := assoc "type" fields.
Let subscription : value := assoc "subscription" fields.

Lemma POST_dispatch (w : World) :
  truthy notificationType = true ->
  POST (Body (JObj fields)) net w
  = try_catch (send_notifications net notificationType subscription) internal_error w.
Proof.
  intros Hty. unfold POST, try_catch, bind, lift. simpl.
  fold notificationType subscription. rewrite Hty. simpl.
  by rewrite andb_false_r.
Qed.

Lemma handle_dispatch_unconvertible (store : list value) (e : thrown) :
  truthy notificationType = true ->
  to_property_key notificationType = Throws e ->
  handle (Body (JObj fields)) net store
  = (fst (internal_error e {| pushSubscriptions := store; sendLog := [] |}),
     {| pushSubscriptions := snapshot store subscription; sendLog := [] |}).
Proof.
  intros Hty Hkey. unfold handle. rewrite POST_dispatch by done.
  unfold try_catch. by rewrite (send_notifications_unconvertible _ _ _ _ _ e).
Qed.

Lemma handle_dispatch_empty (key : string) (store : list value) :
  truthy notificationType = true ->
  to_property_key notificationType = Ok key ->
  snapshot store subscription = [] ->
  handle (Body (JObj fields)) net store
  = (Ok no_subscriptions, {| pushSubscriptions := store; sendLog := [] |}).
Proof.
  intros Hty Hkey Hempty. unfold handle. rewrite POST_dispatch by done.
  unfold try_catch. by rewrite (send_notifications_empty _ _ _ key).
Qed.

Lemma handle_dispatch_run (key : string) (store : list value) :
  let subs := snapshot store subscription in
  truthy notificationType = true ->
  to_property_key notificationType = Ok key ->
  subs <> [] ->
  Permutation (completion net) (seq 0 (length subs)) ->
  handle (Body (JObj fields)) net store
  = (Ok (report notificationType (sent_count net (length subs))
           (length subs - sent_count net (length subs))
           (length (survivors net subs))),
     {| pushSubscriptions := survivors net subs;
        sendLog := attempts key subs |}).
Proof.
  intros subs Hty Hkey Hne Hperm. unfold handle. rewrite POST_dispatch by done.
  unfold try_catch. by rewrite (send_notifications_run _ _ _ key).
Qed.
End Dispatch.

Lemma known_event_truthy (t : string) : known_event t -> truthy (Some (JStr t)) = true.
Proof.
  unfold known_event. simpl. intros [<-|[<-|[<-|[]]]]; reflexivity.
Qed.




Section Survivors.
Variable gone : nat -> bool.

Lemma retained_app (l1 l2 : list value) (k : nat) :
  retained gone k (l1 ++ l2)
  = retained gone k l1 ++ retained gone (k + length l1) l2.
Proof.
  revert k. induction l1 as [|x l1 IH]; intros k; simpl.
  - by rewrite Nat.add_0_r.
  - rewrite IH. replace (S k + length l1) with (k + S (length l1)) by lia.
    by destruct (gone k).
Qed.

Lemma retained_split (l : list value) (i : nat) (x : value) :
  l !! i = Some x ->
  retained gone 0 l
  = retained gone 0 (take i l)
    ++ (if gone i then [] else [x])
    ++ retained gone (S i) (drop (S i) l).
Proof.
  intros Hx. rewrite <- (take_drop_middle l i x Hx) at 1.
  rewrite retained_app. simpl.
  rewrite length_take_le by (apply lookup_lt_Some in Hx; lia).
  by destruct (gone i).
Qed.

Lemma retained_take_length (l : list value) (i : nat) :
  i <= length l ->
  length (retained gone 0 (take i l))
  = i - length (List.filter gone (seq 0 i)).
Proof.
  intros Hi. pose proof (retained_length gone (take i l) 0) as H.
  rewrite length_take_le in H by done. lia.
Qed.
End Survivors.



Lemma fan_out_settles (net : Net) (n : nat) :
  Permutation (completion net) (seq 0 n) ->
  fan_out net n = Ok (List.map (fun i => settle (outcome net i) i) (seq 0 n)).
Proof. apply promise_all_settles. Qed.

Lemma results_lookup (net : Net) (n j : nat) :
  j < n ->
  List.map (fun i => settle (outcome net i) i) (seq 0 n) !! j
  = Some (settle (outcome net j) j).
Proof.
  intros Hj. change (List.map ?f ?l) with (f <$> l).
  rewrite list_lookup_fmap, lookup_seq_lt by done. done.
Qed.





(** C6. In one fan-out every subscription of the snapshot is sent to once;
    what is recorded for a subscription is read off the answer to its own
    attempt only: success for a delivered one, failure (marked for pruning
    or not, by its own error) for a rejected one, so that the record is the
    same under any two networks that agree on that attempt, whatever happens
    to the others; and whatever the failures, the handler answers with the
    200 report that counts them. *)
Theorem fan_out_isolation (fields : list (string * json)) (store : list value)
    (net net' : Net) (key : string) :
  let subs := snapshot store (assoc "subscription" fields) in
  let N := length subs in
  truthy (assoc "type" fields) = true ->
  to_property_key (assoc "type" fields) = Ok key ->
  N <> 0 ->
  Permutation (completion net) (seq 0 N) ->
  Permutation (completion net') (seq 0 N) ->
  exists results results' world world',
    fan_out net N = Ok results
    /\ fan_out net' N = Ok results'
    /\ length results = N
    /\ (forall j, j < N -> outcome net j = Delivered ->
          results !! j = Some {| success := true; index := j; shouldRemove := false |})
    /\ (forall j error, j < N -> outcome net j = Rejected error ->
          results !! j
          = Some {| success := false; index := j; shouldRemove := is_gone error |})
    /\ (forall j, outcome net j = outcome net' j -> results !! j = results' !! j)
    /\ handle (Body (JObj fields)) net store
       = (Ok (report (assoc "type" fields) (sent_count net N)
                (N - sent_count net N) (length (pushSubscriptions world))),
          world)
    /\ handle (Body (JObj fields)) net' store
       = (Ok (report (assoc "type" fields) (sent_count net' N)
                (N - sent_count net' N) (length (pushSubscriptions world'))),
          world')
    /\ sendLog world = attempts key subs
    /\ sendLog world' = attempts key subs.
Proof.
  intros subs N Hty Hkey HN Hperm Hperm'.
  assert (subs <> []) as Hne by (intros Hnil; apply HN; subst N; by rewrite Hnil).
  exists (List.map (fun j => settle (outcome net j) j) (seq 0 N)),
    (List.map (fun j => settle (outcome net' j) j) (seq 0 N)),
    {| pushSubscriptions := survivors net subs; sendLog := attempts key subs |},
    {| pushSubscriptions := survivors net' subs; sendLog := attempts key subs |}.
  split; [by apply fan_out_settles|].
  split; [by apply fan_out_settles|].
  split; [by rewrite length_map, length_seq|].
  split; [intros j Hj Hout; rewrite results_lookup by done; by rewrite Hout|].
  split.
  { intros j error Hj Hout. rewrite results_lookup by done. rewrite Hout.
    simpl. by destruct (is_gone error). }
  split.
  { intros j Hj. destruct (decide (j < N)) as [Hlt|Hge].
    - rewrite !results_lookup by done. by rewrite Hj.
    - change (List.map ?f ?l) with (f <$> l).
      rewrite !list_lookup_fmap, lookup_seq_ge by lia. done. }
  split; [by apply handle_dispatch_run|].
  split; [by apply handle_dispatch_run|].
  done.
Qed.

(** C10. A dispatch request that carries a subscription while the store is
    not empty leaves the store as it was when the fan-out starts: the
    subscription is neither appended nor written over a record, and the
    request is handled exactly as the same request without it. *)
Theorem carried_subscription_ignored (fields : list (string * json))
    (store : list value) (net : Net) (log : list (value * option json)) :
  truthy (assoc "type" fields) = true ->
  store <> [] ->
  adopt_subscription (assoc "subscription" fields)
    {| pushSubscriptions := store; sendLog := log |}
  = (Ok tt, {| pushSubscriptions := store; sendLog := log |})
  /\ snapshot store (assoc "subscription" fields) = store
  /\ handle (Body (JObj fields)) net store
     = handle (Body (JObj (List.filter (fun '(k, _) => negb (String.eqb k "subscription"))
                             fields))) net store.
Proof.
  intros Hty Hne. destruct store as [|s store]; [done|].
  assert (forall k, String.eqb k "subscription" = false ->
            assoc k (List.filter (fun '(k, _) => negb (String.eqb k "subscription")) fields)
            = assoc k fields) as Hsame.
  { intros k Hk. clear Hty. induction fields as [|[k' v] fs IH]; simpl; [done|].
    destruct (String.eqb_spec k' "subscription") as [->|Hne']; simpl.
    - by rewrite Hk.
    - by destruct (String.eqb k k'). }
  split; [done|]. split; [done|].
  unfold handle. rewrite (POST_dispatch net fields) by done.
  rewrite POST_dispatch by (by rewrite (Hsame "type")).
  rewrite (Hsame "type") by done.
  unfold try_catch. by rewrite !(send_notifications_snapshot _ _ _ (s :: store)).
Qed.

(** C5. A dispatch request of a known event type that carries no
    subscription, arriving while nothing is stored, is answered with status
    400 and the error No subscriptions found; nothing is sent and the store
    stays empty. *)
Theorem dispatch_without_subscribers (fields : list (string * json)) (t : string)
    (net : Net) :
  assoc "type" fields = Some (JStr t) ->
  known_event t ->
  truthy (assoc "subscription" fields) = false ->
  handle (Body (JObj fields)) net []
  = (Ok {| status := 400;
           payload := JObj [("error", JStr "No subscriptions found")] |},
     {| pushSubscriptions := []; sendLog := [] |}).
Proof.
  intros Hty Hknown Hsub. apply (handle_dispatch_empty net fields t).
  - rewrite Hty. by apply known_event_truthy.
  - by rewrite Hty.
  - unfold snapshot. by rewrite Hsub.
Qed.

(** ** Requests that carry only a subscription *)

Lemma get_truthy (v : value) (k : string) :
  truthy v = true -> get v k = Ok (get_opt v k).
Proof. by destruct v as [[]|]. Qed.

Lemma strict_eq_sym (a b : value) : strict_eq a b = strict_eq b a.
Proof.
  destruct a as [[]|], b as [[]|]; simpl; try done.
  - by destruct b, b0.
  - apply Z.eqb_sym.
  - apply String.eqb_sym.
Qed.

Lemma strict_eq_trans (a b c : value) :
  strict_eq a b = true -> strict_eq b c = true -> strict_eq a c = true.
Proof.
  destruct a as [[]|], b as [[]|]; simpl; try done; destruct c as [[]|]; simpl; try done.
  - destruct b, b0, b1; done.
  - rewrite !Z.eqb_eq. congruence.
  - rewrite !String.eqb_eq. congruence.
Qed.

Lemma same_endpoint_truthy (subscription sub : value) :
  truthy subscription = true -> truthy sub = true ->
  same_endpoint subscription sub = Ok (matches subscription sub).
Proof.
  intros Hs Hx. unfold same_endpoint. by rewrite !get_truthy.
Qed.

Section Registering.
Variable subscription : value.
Hypothesis subscription_truthy : truthy subscription = true.

Lemma findIndex_from_first_match (l : list value) (i : Z) :
  Forall (fun v => truthy v = true) l ->
  findIndex_from (same_endpoint subscription) l i
  = Ok (match first_match subscription l with
        | Some k => (i + Z.of_nat k)%Z
        | None => (-1)%Z
        end).
Proof.
  intros Hl. revert i. induction Hl as [|x l Hx _ IH]; intros i; simpl; [done|].
  rewrite same_endpoint_truthy by done.
  destruct (matches subscription x).
  - by rewrite Z.add_0_r.
  - rewrite IH. destruct (first_match subscription l) as [k|]; [|done].
    cbn [option_map]. f_equal. lia.
Qed.

Lemma replace_or_append_first_match (l : list value) :
  replace_or_append subscription l
  = match first_match subscription l with
    | Some k => <[k := subscription]> l
    | None => l ++ [subscription]
    end.
Proof.
  induction l as [|x l IH]; simpl; [done|].
  destruct (matches subscription x); [done|].
  rewrite IH. by destruct (first_match subscription l).
Qed.

Lemma store_subscription_run (store : list value) (log : list (value * option json)) :
  Forall (fun v => truthy v = true) store ->
  store_subscription subscription {| pushSubscriptions := store; sendLog := log |}
  = (Ok (stored (length (replace_or_append subscription store))),
     {| pushSubscriptions := replace_or_append subscription store; sendLog := log |}).
Proof.
  intros Hstore.
  unfold store_subscription, bind, read_subscriptions, lift, findIndex. simpl.
  rewrite findIndex_from_first_match, replace_or_append_first_match by done.
  destruct (first_match subscription store) as [k|].
  - rewrite Z.add_0_l. destruct (Z.leb_spec 0 (Z.of_nat k)) as [_|]; [|lia].
    rewrite Nat2Z.id. reflexivity.
  - done.
Qed.

Lemma replace_or_append_length (l : list value) :
  length l <= length (replace_or_append subscription l).
Proof.
  induction l as [|x l IH]; simpl; [lia|].
  destruct (matches subscription x); simpl; lia.
Qed.

Lemma replace_or_append_In (l : list value) :
  In subscription (replace_or_append subscription l).
Proof.
  induction l as [|x l IH]; simpl; [by left|].
  destruct (matches subscription x); simpl; auto.
Qed.

Lemma replace_or_append_Forall (P : value -> Prop) (l : list value) :
  P subscription -> Forall P l -> Forall P (replace_or_append subscription l).
Proof.
  intros Hs. induction 1 as [|x l Hx Hl IH]; simpl.
  - by constructor.
  - destruct (matches subscription x); by constructor.
Qed.

Lemma replace_or_append_distinct (l : list value) :
  distinct_endpoints l -> distinct_endpoints (replace_or_append subscription l).
Proof.
  induction l as [|x l IH]; simpl; [done|].
  intros [Hx Hl]. destruct (matches subscription x) eqn:Hm; simpl.
  - split; [|done]. eapply Forall_impl; [exact Hx|].
    intros y Hy. simpl in Hy. destruct (strict_eq (endpoint_of subscription) (endpoint_of y)) eqn:Hsy; [|done].
    rewrite <- Hy. symmetry. unfold matches in Hm. by eapply strict_eq_trans.
  - split; [|by apply IH]. by apply replace_or_append_Forall.
Qed.
End Registering.

(** ** What any request can do to the store *)

Lemma distinct_endpoints_delete (l : list value) (i : nat) :
  distinct_endpoints l -> distinct_endpoints (delete i l).
Proof.
  revert i. induction l as [|x l IH]; intros i; [done|].
  intros [Hx Hl]. destruct i as [|i]; simpl; [done|].
  split; [by apply Forall_delete|by apply IH].
Qed.

Lemma prune_ok (indices : list nat) (l : list value) :
  store_ok l -> store_ok (prune indices l).
Proof.
  unfold prune. revert l. induction indices as [|i indices IH]; intros l; simpl; [done|].
  intros [Ht Hd]. apply IH. split; [by apply Forall_delete|by apply distinct_endpoints_delete].
Qed.

Lemma snapshot_ok (store : list value) (subscription : value) :
  store_ok store -> store_ok (snapshot store subscription).
Proof.
  unfold snapshot. destruct store as [|x store]; simpl; [|done].
  destruct (truthy subscription) eqn:Hs; [|done].
  intros _. split; simpl; auto.
Qed.

Lemma replace_or_append_ok (subscription : value) (store : list value) :
  truthy subscription = true ->
  store_ok store -> store_ok (replace_or_append subscription store).
Proof.
  intros Hs [Ht Hd]. split.
  - by apply replace_or_append_Forall.
  - by apply replace_or_append_distinct.
Qed.

Lemma fan_out_never_rejects (net : Net) (n : nat) (e : thrown) :
  fan_out net n <> Throws e.
Proof. unfold fan_out, promise_all. by destruct (all_filled _). Qed.

Lemma to_string_settles (j : json) : to_string j <> Pending.
Proof.
  revert j. fix IH 1. intros [| [|] | n | s | items | fs]; cbn [to_string]; try done.
  - match goal with
    | |- match ?elements items with _ => _ end <> _ =>
        assert (elements items <> Pending) as Hitems
    end.
    { induction items as [|x items IHitems]; [done|].
      assert ((match x with JNull => Ok "" | _ => to_string x end) <> Pending) as Hx.
      { pose proof (IH x) as Hx. by destruct x. }
      destruct (match x with JNull => Ok "" | _ => to_string x end) as [sx|e|];
        [|done|done].
      set (rest := _ items) in *. by destruct rest. }
    set (r := _ items) in *. by destruct r.
  - by destruct (assoc "toString" fs).
Qed.

Lemma to_property_key_settles (v : value) : to_property_key v <> Pending.
Proof. destruct v as [j|]; [apply to_string_settles|done]. Qed.

Lemma to_string_throws (j : json) (e : thrown) :
  to_string j = Throws e -> e = ErrorObj unconvertible.
Proof.
  revert j e. fix IH 1.
  intros [| [|] | n | s | items | fs] e; cbn [to_string]; try done.
  - match goal with
    | |- match ?elements items with _ => _ end = _ -> _ =>
        assert (forall e', elements items = Throws e' -> e' = ErrorObj unconvertible)
          as Hitems
    end.
    { induction items as [|x items IHitems]; [done|]. intros e'.
      assert (forall e'', (match x with JNull => Ok "" | _ => to_string x end)
                          = Throws e'' -> e'' = ErrorObj unconvertible) as Hx.
      { pose proof (IH x) as Hx. destruct x; done || exact Hx. }
      destruct (match x with JNull => Ok "" | _ => to_string x end) as [sx|ex|];
        [| |done].
      - set (rest := _ items) in *. destruct rest as [ss|er|]; [done| |done].
        intros [= <-]. by apply IHitems.
      - intros [= <-]. by apply Hx. }
    set (r := _ items) in *. destruct r as [ss|er|]; [done| |done].
    intros [= <-]. by apply Hitems.
  - destruct (assoc "toString" fs); [|done]. by intros [= <-].
Qed.

Lemma to_property_key_throws (v : value) (e : thrown) :
  to_property_key v = Throws e -> e = ErrorObj unconvertible.
Proof. destruct v as [j|]; [apply to_string_throws|done]. Qed.

Lemma send_notifications_store (net : Net) (notificationType subscription : value)
    (store : list value) (lg : list (value * option json)) :
  exists indices r lg',
    send_notifications net notificationType subscription
      {| pushSubscriptions := store; sendLog := lg |}
    = (r, {| pushSubscriptions := prune indices (snapshot store subscription);
             sendLog := lg' |}).
Proof.
  destruct (to_property_key notificationType) as [key|e|] eqn:Hkey.
  - rewrite (send_notifications_converted _ _ _ key) by done.
    set (subs := snapshot store subscription).
    destruct (length subs =? 0)%nat.
    + by exists [], (Ok no_subscriptions), lg.
    + unfold bind. rewrite log_sends_run. unfold lift.
      destruct (fan_out net (length subs)) as [results|e|]; simpl.
      * by do 3 eexists.
      * exists []. by do 2 eexists.
      * exists []. by do 2 eexists.
  - rewrite (send_notifications_unconvertible _ _ _ _ _ e) by done.
    by exists [], (Throws e), lg.
  - by destruct (to_property_key_settles notificationType).
Qed.

Lemma POST_store (request : RequestBody) (net : Net) (store : list value) :
  store_ok store ->
  store_ok (pushSubscriptions (snd (handle request net store))).
Proof.
  intros Hok. unfold handle, POST, try_catch, bind at 1, lift at 1.
  destruct request as [message|j]; [done|].
  cbn [request_json]. unfold bind at 1, lift at 1.
  destruct (get (Some j) "subscription") as [subscription|e|] eqn:Hsub;
    [|done|done].
  assert (get (Some j) "type" = Ok (get_opt (Some j) "type")) as ->.
  { destruct j; simpl in *; done. }
  unfold bind at 1, lift at 1.
  set (type := get_opt (Some j) "type").
  destruct (truthy subscription && negb (truthy type)) eqn:Hreg.
  - apply andb_true_iff in Hreg as [Hs _].
    rewrite store_subscription_run by apply Hok || done.
    by apply replace_or_append_ok.
  - destruct (truthy type).
    + destruct (send_notifications_store net type subscription store [])
        as (indices & r & lg' & ->).
      destruct r as [response|e|]; by apply prune_ok, snapshot_ok.
    + done.
Qed.

Lemma reachable_ok (store : list value) : reachable store -> store_ok store.
Proof.
  induction 1 as [|request net store _ IH].
  - split; simpl; auto.
  - by apply POST_store.
Qed.

Lemma handle_registration (fields : list (string * json)) (net : Net)
    (store : list value) :
  let subscription := assoc "subscription" fields in
  Forall (fun v => truthy v = true) store ->
  truthy subscription = true ->
  truthy (assoc "type" fields) = false ->
  handle (Body (JObj fields)) net store
  = (Ok (stored (length (replace_or_append subscription store))),
     {| pushSubscriptions := replace_or_append subscription store; sendLog := [] |}).
Proof.
  intros subscription Hstore Hs Hty.
  unfold handle, POST, try_catch, bind at 1 2 3, lift. simpl.
  fold subscription. rewrite Hs, Hty. simpl.
  by rewrite store_subscription_run.
Qed.

Lemma distinct_endpoints_lookup (l : list value) (i j : nat) (a b : value) :
  distinct_endpoints l ->
  l !! i = Some a -> l !! j = Some b ->
  strict_eq (endpoint_of a) (endpoint_of b) = true ->
  i = j.
Proof.
  revert i j. induction l as [|x l IH]; intros i j Hd Ha Hb Heq; [done|].
  destruct Hd as [Hx Hl]. destruct i as [|i], j as [|j]; simpl in *; try done.
  - injection Ha as <-. rewrite Forall_lookup in Hx.
    specialize (Hx _ _ Hb). simpl in Hx. congruence.
  - injection Hb as <-. rewrite Forall_lookup in Hx.
    specialize (Hx _ _ Ha). simpl in Hx. rewrite strict_eq_sym in Hx. congruence.
  - f_equal. by eapply IH.
Qed.

Lemma replace_or_append_position (subscription : value) (l : list value) :
  exists i, replace_or_append subscription l !! i = Some subscription
            /\ (i < length l -> exists old, l !! i = Some old /\ matches subscription old = true)
            /\ (length l <= i -> i = length l /\ first_match subscription l = None).
Proof.
  induction l as [|x l (i & Hi & Hin & Hout)]; simpl.
  - exists 0. split; [done|]. split; [lia|done].
  - destruct (matches subscription x) eqn:Hm.
    + exists 0. split; [done|]. split; [by exists x|lia].
    + exists (S i). split; [done|]. split.
      * intros Hlt. apply Hin. lia.
      * intros Hge. destruct Hout as [-> ->]; [lia|]. done.
Qed.

Lemma replace_or_append_overwrites (later earlier : value) (l : list value) (i : nat) :
  distinct_endpoints l ->
  l !! i = Some earlier ->
  strict_eq (endpoint_of earlier) (endpoint_of later) = true ->
  replace_or_append later l = <[i := later]> l.
Proof.
  revert i. induction l as [|x l IH]; intros i Hd Hi Heq; [done|].
  destruct Hd as [Hx Hl]. destruct i as [|i]; simpl in *.
  - injection Hi as ->. unfold matches. by rewrite Heq.
  - unfold matches at 1.
    destruct (strict_eq (endpoint_of x) (endpoint_of later)) eqn:Hxl.
    + exfalso. rewrite Forall_lookup in Hx. specialize (Hx _ _ Hi). simpl in Hx.
      rewrite (strict_eq_trans _ (endpoint_of later) _) in Hx; [done|done|].
      by rewrite strict_eq_sym.
    + f_equal. by apply IH.
Qed.

(** C4. Two registrations whose subscriptions carry the same endpoint: after
    the second one exactly one stored record has that endpoint, that record
    is the subscription of the second call, the count is what it was after
    the first call, and the record stands where the first call left it. *)
Theorem reregistration_in_place (fields fields' : list (string * json))
    (net net' : Net) (store : list value) :
  let earlier := assoc "subscription" fields in
  let later := assoc "subscription" fields' in
  let first := handle (Body (JObj fields)) net store in
  let second := handle (Body (JObj fields')) net' (pushSubscriptions (snd first)) in
  let before := pushSubscriptions (snd first) in
  let after := pushSubscriptions (snd second) in
  reachable store ->
  truthy earlier = true -> truthy (assoc "type" fields) = false ->
  truthy later = true -> truthy (assoc "type" fields') = false ->
  strict_eq (endpoint_of earlier) (endpoint_of later) = true ->
  exists i,
    before !! i = Some earlier
    /\ after = <[i := later]> before
    /\ after !! i = Some later
    /\ (forall j record,
          after !! j = Some record ->
          strict_eq (endpoint_of record) (endpoint_of later) = true -> j = i)
    /\ length after = length before
    /\ fst second = Ok (stored (length before)).
Proof.
  intros earlier later first second before after Hreach He Hty Hl Hty' Heq.
  destruct (reachable_ok store Hreach) as [Htruthy Hdistinct].
  assert (first = (Ok (stored (length (replace_or_append earlier store))),
                   {| pushSubscriptions := replace_or_append earlier store;
                      sendLog := [] |})) as Hfirst
    by (by apply handle_registration).
  assert (before = replace_or_append earlier store) as Hbefore
    by (subst before; by rewrite Hfirst).
  assert (store_ok before) as [Htruthy' Hdistinct']
    by (rewrite Hbefore; by apply replace_or_append_ok).
  assert (second = (Ok (stored (length (replace_or_append later before))),
                    {| pushSubscriptions := replace_or_append later before;
                       sendLog := [] |})) as Hsecond
    by (by apply handle_registration).
  destruct (replace_or_append_position earlier store) as (i & Hi & _).
  rewrite <- Hbefore in Hi.
  assert (replace_or_append later before = <[i := later]> before) as Hrep
    by (by apply (replace_or_append_overwrites later earlier)).
  assert (after = <[i := later]> before) as Hafter
    by (subst after; by rewrite Hsecond).
  assert (after !! i = Some later) as Hlater.
  { rewrite Hafter. apply list_lookup_insert_eq. by apply lookup_lt_Some in Hi. }
  exists i. repeat split; try done.
  - intros j record Hj Hrec.
    assert (store_ok after) as [_ Hd].
    { subst after. rewrite Hsecond. simpl. by apply replace_or_append_ok. }
    by apply (distinct_endpoints_lookup after j i record later).
  - rewrite Hafter. apply length_insert.
  - rewrite Hsecond, Hrep, length_insert. done.
Qed.

(** C7, as amended. Every registration request (a subscription and no type)
    succeeds and answers with the number of stored records, whatever the
    subscription looks like: nothing is validated, and a subscription without
    an endpoint is stored like any other, over the first record with the
    same endpoint value if there is one and at the end otherwise. *)
Theorem registration_always_stores (fields : list (string * json)) (net : Net)
    (store : list value) :
  let subscription := assoc "subscription" fields in
  reachable store ->
  truthy subscription = true ->
  truthy (assoc "type" fields) = false ->
  exists after,
    handle (Body (JObj fields)) net store
    = (Ok (stored (length after)), {| pushSubscriptions := after; sendLog := [] |})
    /\ after = replace_or_append subscription store
    /\ In subscription after
    /\ length store <= length after.
Proof.
  intros subscription Hreach Hs Hty.
  destruct (reachable_ok store Hreach) as [Htruthy _].
  exists (replace_or_append subscription store). repeat split.
  - by apply handle_registration.
  - apply replace_or_append_In.
  - apply replace_or_append_length.
Qed.

(** C7 as stated fails: a subscription with no endpoint is answered with
    status 200 and stored. *)
Lemma malformed_subscription_is_stored :
  endpoint_of (Some (JObj [("keys", JStr "k")])) = None
  /\ ~ rejected_unstored [("subscription", JObj [("keys", JStr "k")])]
         {| outcome := fun _ => Delivered; completion := [] |} [].
Proof.
  split; [reflexivity|].
  intros (response & world & Hrun & Hstatus & Hstore).
  vm_compute in Hrun. injection Hrun as <- <-. simpl in Hstore. discriminate.
Qed.

Lemma unknown_event_absent (t : string) :
  ~ known_event t -> assoc t notificationPayloads = None.
Proof.
  unfold known_event. generalize notificationPayloads.
  intros table. induction table as [|[k v] table IH]; simpl; [done|].
  intros Hn. destruct (String.eqb_spec t k) as [->|Hne].
  - exfalso. apply Hn. by left.
  - apply IH. intros Hin. apply Hn. by right.
Qed.

(** C3, as amended. A dispatch request whose event type is outside the
    catalog is not turned away: no catalog check is made. The type is
    converted to a property key. When the conversion throws, the answer is
    the 500 error, nothing is sent, and the store is the one lines 68-71
    leave. Otherwise the request is handled like any other dispatch, with
    the payload the key selects: none, except that the key [__proto__] gives
    an empty object and a key that equals a catalog name gives that entry.
    With nothing stored the answer is the 400 error No subscriptions found,
    nothing is sent and the store is untouched; otherwise one attempt is
    made per stored subscription, those reported gone are pruned, and the
    200 report is returned. *)
Theorem unknown_type_is_dispatched (fields : list (string * json))
    (store : list value) (net : Net) :
  let notificationType := assoc "type" fields in
  let subs := snapshot store (assoc "subscription" fields) in
  let N := length subs in
  truthy notificationType = true ->
  outside_catalog notificationType ->
  (forall e, to_property_key notificationType = Throws e ->
     handle (Body (JObj fields)) net store
     = (Ok (server_error unconvertible),
        {| pushSubscriptions := subs; sendLog := [] |}))
  /\ (forall key, to_property_key notificationType = Ok key ->
      (~ known_event key -> key <> "__proto__" -> payload_text key = None)
      /\ (key = "__proto__" -> payload_text key = Some (JObj []))
      /\ (known_event key -> payload_text key = assoc key notificationPayloads)
      /\ (subs = [] ->
          handle (Body (JObj fields)) net store
          = (Ok no_subscriptions, {| pushSubscriptions := store; sendLog := [] |}))
      /\ (subs <> [] ->
          Permutation (completion net) (seq 0 N) ->
          handle (Body (JObj fields)) net store
          = (Ok (report notificationType (sent_count net N) (N - sent_count net N)
                   (length (survivors net subs))),
             {| pushSubscriptions := survivors net subs;
                sendLog := attempts key subs |}))).
Proof.
  intros notificationType subs N Htruthy _. split.
  - intros e Hkey. rewrite (handle_dispatch_unconvertible net fields store e) by done.
    by rewrite (to_property_key_throws _ _ Hkey).
  - intros key Hkey. repeat split.
    + intros Hunknown Hproto. unfold payload_text.
      rewrite unknown_event_absent by done.
      by destruct (String.eqb_spec key "__proto__").
    + by intros ->.
    + intros Hknown. unfold payload_text.
      destruct (assoc key notificationPayloads) eqn:Hassoc; [done|].
      exfalso. revert Hknown Hassoc. unfold known_event.
      generalize notificationPayloads. intros table.
      induction table as [|[k v] table IH]; simpl; [done|].
      destruct (String.eqb_spec key k) as [->|Hne]; [done|].
      intros [Heq|Hin]; [congruence|by apply IH].
    + intros Hnil. by apply (handle_dispatch_empty net fields key).
    + intros Hsubs Hperm. by apply handle_dispatch_run.
Qed.

(** C3 as stated fails: a request of an unknown type, sent while one
    subscription is stored whose push service answers 410, gets the 200
    report, one attempt is made, and the store loses the subscription. *)
Lemma unknown_type_not_rejected :
  ~ known_event "unknown_type"
  /\ ~ fails_fast [("type", JStr "unknown_type")]
         {| outcome := fun _ => Rejected (ErrorObj "Received 410 Gone");
            completion := [0] |}
         [Some (JObj [("endpoint", JStr "E2"); ("keys", JStr "k2")])].
Proof.
  split.
  - unfold known_event. simpl. intros [H|[H|[H|[]]]]; discriminate.
  - intros (response & world & Hrun & Hstatus & Hlog & Hstore).
    vm_compute in Hrun. injection Hrun as <- <-. simpl in Hlog. discriminate.
Qed.

(** ** The service worker *)

(** C8, as amended. A push whose body is present and does not parse shows
    exactly one notification, the fixed fallback: title New Notification,
    fixed body, icon and badge, and data.url equal to the root path. A push
    that carries no body at all shows nothing. *)
Theorem unparseable_push_shows_fallback (message : string) :
  on_push (Some (Unparseable message))
  = [{| title := Some (JStr "New Notification");
        options := JObj [("body", JStr "You have a new notification");
                         ("icon", JStr "/icon-192x192.svg");
                         ("badge", JStr "/icon-192x192.svg");
                         ("data", JObj [("url", JStr "/")])] |}]
  /\ on_push None = [].
Proof. split; reflexivity. Qed.

(** C8 as stated fails: a push with no body shows no notification. *)
Lemma push_without_body_shows_nothing :
  ~ exists shown, on_push None = [shown].
Proof. intros [shown H]. discriminate. Qed.

Section Click.
Variable target : json.

Lemma focus_existing_none (clientList : list Client) (k : nat) :
  Forall (fun c => has_focus c = false) clientList ->
  focus_existing target clientList k = None.
Proof.
  intros H. revert k. induction H as [|c l Hc _ IH]; intros k; simpl; [done|].
  by rewrite Hc.
Qed.

Lemma focus_existing_first (clientList : list Client) (k i : nat) (client : Client) :
  clientList !! i = Some client ->
  has_focus client = true ->
  Forall (fun c => has_focus c = false) (take i clientList) ->
  focus_existing target clientList k
  = Some (ClientFocus (k + i)
            :: (if strict_eq (Some (JStr (url client))) (Some target)
                then [] else [ClientNavigate (k + i) target]),
          rejection_line (focus_outcome client),
          if strict_eq (Some (JStr (url client))) (Some target)
          then Ok tt else navigate_outcome client).
Proof.
  revert k i. induction clientList as [|c l IH]; intros k i Hi Hfocus Hbefore; [done|].
  destruct i as [|i]; simpl in Hi, Hbefore; cbn [focus_existing].
  - injection Hi as ->. rewrite Hfocus, Nat.add_0_r.
    by destruct (strict_eq (Some (JStr (url client))) (Some target)).
  - apply Forall_cons in Hbefore as [Hc Hbefore]. rewrite Hc.
    rewrite (IH (S k) i) by done. by replace (S k + i) with (k + S i) by lia.
Qed.
End Click.

(** C9, as amended. A click on the dismiss action closes the notification
    and does nothing else. Any other click closes the notification and then:
    the first client that can be focused is focused, and navigated to the
    target URL only when its URL differs from it; with no such client a
    window is opened at the target URL, provided the runtime has
    clients.openWindow (without it nothing more is done). A rejection of
    matchAll, navigate or openWindow is logged by the catch of the handler,
    a rejection of focus by the unhandledrejection listener (the two logs
    are stated apart, no order between their lines is fixed), and the
    promise given to waitUntil never rejects. *)
Theorem notification_click_routing (env : Clients) (data : value) (action : string) :
  let click := on_notificationclick env data action in
  let target := urlToOpen data in
  (action = "dismiss" ->
   calls click = [NotificationClose] /\ caught click = []
   /\ unhandled click = [] /\ waited click = None)
  /\ (action <> "dismiss" ->
      (exists rest, calls click = NotificationClose :: rest)
      /\ (forall e, waited click <> Some (Throws e))
      /\ (forall e, matchAll env = Throws e ->
            calls click = [NotificationClose] /\ caught click = [e]
            /\ unhandled click = [])
      /\ (forall clientList i client,
            matchAll env = Ok clientList ->
            clientList !! i = Some client ->
            has_focus client = true ->
            Forall (fun c => has_focus c = false) (take i clientList) ->
            (strict_eq (Some (JStr (url client))) (Some target) = true ->
             calls click = [NotificationClose; ClientFocus i]
             /\ caught click = []
             /\ unhandled click = rejection_line (focus_outcome client))
            /\ (strict_eq (Some (JStr (url client))) (Some target) = false ->
                calls click = [NotificationClose; ClientFocus i; ClientNavigate i target]
                /\ caught click = logged (navigate_outcome client)
                /\ unhandled click = rejection_line (focus_outcome client)))
      /\ (forall clientList opened,
            matchAll env = Ok clientList ->
            Forall (fun c => has_focus c = false) clientList ->
            openWindow env = Some opened ->
            calls click = [NotificationClose; OpenWindow target]
            /\ caught click = logged opened
            /\ unhandled click = [])
      /\ (forall clientList,
            matchAll env = Ok clientList ->
            Forall (fun c => has_focus c = false) clientList ->
            openWindow env = None ->
            calls click = [NotificationClose] /\ caught click = []
            /\ unhandled click = [])).
Proof.
  intros click target. subst click. unfold on_notificationclick. fold target.
  split.
  - intros ->. done.
  - intros Hne. destruct (String.eqb_spec action "dismiss") as [|_]; [done|].
    split; [|split; [|split; [|split; [|split]]]].
    + destruct (matchAll env) as [l| |]; [|by eexists..].
      destruct (open_app env target l) as [[made lines] [| |]]; by eexists.
    + intros e. destruct (matchAll env) as [l| |]; [|done..].
      destruct (open_app env target l) as [[made lines] [| |]]; done.
    + intros e ->. done.
    + intros l i client -> Hi Hfocus Hbefore. unfold open_app.
      rewrite (focus_existing_first target l 0 i client) by done.
      cbn [Nat.add]. split; intros ->.
      * done.
      * by destruct (navigate_outcome client).
    + intros l opened -> Hnone Hopen. unfold open_app.
      rewrite focus_existing_none, Hopen by done.
      by destruct opened.
    + intros l -> Hnone Hopen. unfold open_app.
      rewrite focus_existing_none, Hopen by done. done.
Qed.

(** C9 as stated fails: with no client to focus and no clients.openWindow
    in the runtime, a default click opens no window. *)
Lemma click_without_openWindow :
  ~ In (OpenWindow (urlToOpen (Some (JObj [("url", JStr "/chats/123")]))))
       (calls (on_notificationclick {| matchAll := Ok []; openWindow := None |}
                 (Some (JObj [("url", JStr "/chats/123")])) "")).
Proof. simpl. intros [H|[]]. discriminate. Qed.

(** ** Two end-to-end runs

    Subscribe E1, dispatch new_match, delivery succeeds; subscribe E2,
    dispatch new_message, the push service answers 410. *)

Example delivered_run :
  handle (Body (JObj [("type", JStr "new_match")])) quiet_net
    (pushSubscriptions (snd (handle (register_request "E1" "k1") quiet_net [])))
  = (Ok (report (Some (JStr "new_match")) 1 0 1),
     {| pushSubscriptions := [endpoint_record "E1" "k1"];
        sendLog := attempts "new_match" [endpoint_record "E1" "k1"] |}).
Proof. reflexivity. Qed.

Example gone_run :
  handle (Body (JObj [("type", JStr "new_message")]))
    {| outcome := fun _ => Rejected (ErrorObj "Received 410 Gone"); completion := [0] |}
    (pushSubscriptions (snd (handle (register_request "E2" "k2") quiet_net [])))
  = (Ok (report (Some (JStr "new_message")) 0 1 0),
     {| pushSubscriptions := [];
        sendLog := attempts "new_message" [endpoint_record "E2" "k2"] |}).
Proof. reflexivity. Qed.

(** Three types outside the catalog. The string [__proto__] sends an empty
    object; the array holding [new_match] converts to that key and sends the
    catalog entry; an object with a [toString] entry cannot be converted, and
    the request is answered 500 after its subscription was stored. *)

Example proto_type_run :
  handle (Body (JObj [("type", JStr "__proto__")])) quiet_net
    [endpoint_record "E1" "k1"]
  = (Ok (report (Some (JStr "__proto__")) 1 0 1),
     {| pushSubscriptions := [endpoint_record "E1" "k1"];
        sendLog := [(endpoint_record "E1" "k1", Some (JObj []))] |}).
Proof. reflexivity. Qed.

Example array_type_run :
  handle (Body (JObj [("type", JArr [JStr "new_match"])])) quiet_net
    [endpoint_record "E1" "k1"]
  = (Ok (report (Some (JArr [JStr "new_match"])) 1 0 1),
     {| pushSubscriptions := [endpoint_record "E1" "k1"];
        sendLog := [(endpoint_record "E1" "k1",
                     assoc "new_match" notificationPayloads)] |}).
Proof. reflexivity. Qed.

Example unconvertible_type_run :
  handle (Body (JObj [("type", JObj [("toString", JNum 1)]);
                      ("subscription", JObj [("endpoint", JStr "E9")])]))
    quiet_net []
  = (Ok (server_error unconvertible),
     {| pushSubscriptions := [Some (JObj [("endpoint", JStr "E9")])];
        sendLog := [] |}).
Proof. reflexivity. Qed.

(** ** The statements at concrete requests *)

Lemma sample_completion : Permutation (completion sample_net) (seq 0 3).
Proof. apply (bool_decide_unpack _). vm_compute. exact I. Defined.

Lemma sample_store_reachable : reachable [endpoint_record "E1" "k1"].
Proof.
  exact (reachable_step
           (Body (JObj [("subscription",
                         JObj [("endpoint", JStr "E1"); ("keys", JStr "k1")])]))
           quiet_net [] reachable_init).
Defined.



Lemma fan_out_isolation_witness :
  exists results results',
    fan_out sample_net 3 = Ok results
    /\ fan_out quiet_net_3 3 = Ok results'
    /\ results !! 0 = results' !! 0.
Proof.
  destruct (fan_out_isolation [("type", JStr "chat_expiry")] sample_store
              sample_net quiet_net_3 "chat_expiry")
    as (results & results' & world & world' & Hr & Hr' & _ & _ & _ & Hsame & _).
  - reflexivity.
  - reflexivity.
  - simpl. lia.
  - exact sample_completion.
  - apply (bool_decide_unpack _). vm_compute. exact I.
  - exists results, results'. split; [exact Hr|]. split; [exact Hr'|].
    apply Hsame. reflexivity.
Defined.

Lemma carried_subscription_ignored_witness :
  snapshot sample_store (Some (JObj [("endpoint", JStr "E9")])) = sample_store
  /\ handle (Body (JObj [("type", JStr "new_match");
                         ("subscription", JObj [("endpoint", JStr "E9")])]))
       sample_net sample_store
     = handle (Body (JObj [("type", JStr "new_match")])) sample_net sample_store.
Proof.
  destruct (carried_subscription_ignored
              [("type", JStr "new_match");
               ("subscription", JObj [("endpoint", JStr "E9")])]
              sample_store sample_net [])
    as (_ & Hsnap & Hrun).
  - reflexivity.
  - discriminate.
  - split; [exact Hsnap|exact Hrun].
Defined.

Lemma dispatch_without_subscribers_witness :
  handle (Body (JObj [("type", JStr "chat_expiry")])) quiet_net []
  = (Ok {| status := 400;
           payload := JObj [("error", JStr "No subscriptions found")] |},
     {| pushSubscriptions := []; sendLog := [] |}).
Proof.
  apply (dispatch_without_subscribers [("type", JStr "chat_expiry")] "chat_expiry").
  - reflexivity.
  - right. right. left. reflexivity.
  - reflexivity.
Defined.

Lemma reregistration_in_place_witness :
  let before :=
    pushSubscriptions
      (snd (handle (register_request "E1" "old") quiet_net [endpoint_record "E1" "k1"])) in
  let after :=
    pushSubscriptions (snd (handle (register_request "E1" "new") quiet_net before)) in
  exists i,
    before !! i = Some (endpoint_record "E1" "old")
    /\ after = <[i := endpoint_record "E1" "new"]> before
    /\ length after = length before.
Proof.
  destruct (reregistration_in_place
              [("subscription", JObj [("endpoint", JStr "E1"); ("keys", JStr "old")])]
              [("subscription", JObj [("endpoint", JStr "E1"); ("keys", JStr "new")])]
              quiet_net quiet_net [endpoint_record "E1" "k1"])
    as (i & Hbefore & Hafter & _ & _ & Hlen & _).
  - exact sample_store_reachable.
  - reflexivity.
  - reflexivity.
  - reflexivity.
  - reflexivity.
  - reflexivity.
  - exists i. split; [exact Hbefore|]. split; [exact Hafter|exact Hlen].
Defined.

Lemma registration_always_stores_witness :
  exists after,
    handle (register_request "E2" "k2") quiet_net [endpoint_record "E1" "k1"]
    = (Ok (stored (length after)), {| pushSubscriptions := after; sendLog := [] |})
    /\ after = [endpoint_record "E1" "k1"; endpoint_record "E2" "k2"].
Proof.
  destruct (registration_always_stores
              [("subscription", JObj [("endpoint", JStr "E2"); ("keys", JStr "k2")])]
              quiet_net [endpoint_record "E1" "k1"])
    as (after & Hrun & Hafter & _).
  - exact sample_store_reachable.
  - reflexivity.
  - reflexivity.
  - exists after. split; [exact Hrun|]. rewrite Hafter. reflexivity.
Defined.

Lemma unknown_event_sample : ~ known_event "unknown_type".
Proof. unfold known_event. simpl. intros [H|[H|[H|[]]]]; discriminate. Defined.

Lemma unknown_type_is_dispatched_witness :
  payload_text "unknown_type" = None
  /\ handle (Body (JObj [("type", JStr "unknown_type")])) sample_net sample_store
     = (Ok (report (Some (JStr "unknown_type")) 1 2 2),
        {| pushSubscriptions := [endpoint_record "E1" "k1"; endpoint_record "E3" "k3"];
           sendLog := [(endpoint_record "E1" "k1", None);
                       (endpoint_record "E2" "k2", None);
                       (endpoint_record "E3" "k3", None)] |}).
Proof.
  destruct (unknown_type_is_dispatched [("type", JStr "unknown_type")]
              sample_store sample_net)
    as (_ & Hconverted).
  - reflexivity.
  - intros t Hknown [= <-]. exact (unknown_event_sample Hknown).
  - destruct (Hconverted "unknown_type") as (Hpayload & _ & _ & _ & Hrun);
      [reflexivity|].
    split.
    + apply Hpayload; [exact unknown_event_sample|discriminate].
    + rewrite Hrun; [reflexivity|discriminate|exact sample_completion].
Defined.

Lemma notification_click_routing_witness :
  let click :=
    on_notificationclick {| matchAll := Ok sample_clients; openWindow := Some (Ok tt) |}
      (Some (JObj [("url", JStr "/chats/123")])) "view" in
  calls click = [NotificationClose; ClientFocus 1; ClientNavigate 1 (JStr "/chats/123")]
  /\ caught click = [ErrorObj "navigation failed"]
  /\ unhandled click = []
  /\ waited click = Some (Ok tt).
Proof.
  destruct (notification_click_routing
              {| matchAll := Ok sample_clients; openWindow := Some (Ok tt) |}
              (Some (JObj [("url", JStr "/chats/123")])) "view")
    as [_ Hview].
  destruct Hview as (_ & _ & _ & Hfocus & _); [discriminate|].
  destruct (Hfocus sample_clients 1
              {| has_focus := true; url := "https://app.example/";
                 focus_outcome := Ok tt;
                 navigate_outcome := Throws (ErrorObj "navigation failed") |})
    as [_ Hnavigate].
  - reflexivity.
  - reflexivity.
  - reflexivity.
  - repeat constructor.
  - destruct Hnavigate as (Hcalls & Hcaught & Hunhandled); [reflexivity|].
    split; [exact Hcalls|]. split; [exact Hcaught|].
    split; [exact Hunhandled|reflexivity].
Defined.

(** ** Further properties of the route *)

Lemma findIndex_from_settles (subscription : value) (l : list value) (i : Z) :
  findIndex_from (same_endpoint subscription) l i <> Pending.
Proof.
  revert i. induction l as [|x l IH]; intros i; simpl; [done|].
  unfold same_endpoint at 1.
  destruct (get x "endpoint") as [a|e|] eqn:Hx; [|done|by destruct x as [[]|]].
  destruct (get subscription "endpoint") as [b|e|] eqn:Hs;
    [|done|by destruct subscription as [[]|]].
  destruct (strict_eq a b); [done|apply IH].
Qed.

Lemma store_subscription_cases (subscription : value) (store : list value) :
  (exists after,
     store_subscription subscription {| pushSubscriptions := store; sendLog := [] |}
     = (Ok (stored (length after)), {| pushSubscriptions := after; sendLog := [] |}))
  \/ (exists e,
        store_subscription subscription {| pushSubscriptions := store; sendLog := [] |}
        = (Throws e, {| pushSubscriptions := store; sendLog := [] |})).
Proof.
  unfold store_subscription, bind, read_subscriptions, lift, findIndex. simpl.
  pose proof (findIndex_from_settles subscription store 0) as Hsettles.
  destruct (findIndex_from (same_endpoint subscription) store 0) as [z|e|];
    [|right; by exists e|done].
  left. destruct (0 <=? z)%Z; eexists; reflexivity.
Qed.

Lemma dispatch_cases (fields : list (string * json)) (net : Net)
    (store : list value) :
  truthy (assoc "type" fields) = true ->
  Handled (Body (JObj fields)) net store (handle (Body (JObj fields)) net store).
Proof.
  intros Hty. unfold handle. rewrite POST_dispatch by done. unfold try_catch.
  destruct (to_property_key (assoc "type" fields)) as [key|e|] eqn:Hkey.
  - rewrite (send_notifications_converted _ _ _ key) by done.
    set (subscription := assoc "subscription" fields).
    set (subs := snapshot store subscription).
    destruct (length subs =? 0)%nat eqn:Hlen.
    + destruct subs eqn:Hsubs; [|done].
      assert (store = []) as ->.
      { subst subs. unfold snapshot in Hsubs.
        destruct ((length store =? 0)%nat && truthy subscription);
          [by destruct store|done]. }
      apply handled_empty.
    + unfold bind. rewrite log_sends_run. unfold lift.
      destruct (fan_out net (length subs)) as [results|e|] eqn:Hfan; simpl.
      * by apply (handled_report _ net store (assoc "type" fields) subscription).
      * by destruct (fan_out_never_rejects net (length subs) e).
      * by apply (handled_pending _ net store subscription).
  - rewrite (send_notifications_unconvertible _ _ _ _ _ e) by done.
    pose proof (to_property_key_throws _ _ Hkey) as ->.
    by apply (handled_unconvertible _ net store fields).
  - by destruct (to_property_key_settles (assoc "type" fields)).
Qed.

Lemma handle_cases (request : RequestBody) (net : Net) (store : list value) :
  Handled request net store (handle request net store).
Proof.
  destruct request as [message|j]; [apply handled_error|].
  destruct (truthy (get_opt (Some j) "type")) eqn:Hty.
  { destruct j as [| | | | |fields]; try done. by apply dispatch_cases. }
  unfold handle, POST, try_catch, bind at 1, lift at 1.
  cbn [request_json]. unfold bind at 1, lift at 1.
  destruct (get (Some j) "subscription") as [subscription|e|] eqn:Hsub;
    [|destruct j; try done; injection Hsub as <-; apply handled_error
     |by destruct j].
  assert (get (Some j) "type" = Ok (get_opt (Some j) "type")) as ->
    by (destruct j; simpl in *; done).
  unfold bind at 1, lift at 1. rewrite Hty.
  destruct (truthy subscription && negb false).
  - destruct (store_subscription_cases subscription store)
      as [[after ->]|[e ->]].
    + apply handled_stored.
    + destruct e as [message|message code|]; apply handled_error.
  - apply handled_invalid.
Qed.

(** X1. No exception leaves the handler, whatever the request body, the
    store and the network: it answers with status 200, 400 or 500, or does
    not answer because the fan-out never settles. *)
Theorem handler_contains_errors (request : RequestBody) (net : Net)
    (store : list value) :
  match fst (handle request net store) with
  | Ok response =>
      status response = 200%Z \/ status response = 400%Z \/ status response = 500%Z
  | Throws _ => False
  | Pending =>
      exists subscription,
        fan_out net (length (snapshot store subscription)) = Pending
  end.
Proof.
  pose proof (handle_cases request net store) as H.
  destruct (handle request net store) as [r w]. simpl.
  inversion H; subst; simpl; auto.
  by exists subscription.
Qed.

(** X2. A response other than 200 means the transport was not called, and
    a 400 response means nothing happened at all: the store is the one the
    request found. The one refused request that changes the store is
    answered 500: a dispatch whose type cannot be converted to a string,
    sent with a subscription while nothing is stored; lines 68-71 stored
    that subscription before the conversion of line 73 threw. *)
Theorem refused_request_changes_nothing (request : RequestBody) (net : Net)
    (store : list value) (response : Response) :
  let world := snd (handle request net store) in
  fst (handle request net store) = Ok response ->
  status response <> 200%Z ->
  sendLog world = []
  /\ (status response = 400%Z -> pushSubscriptions world = store)
  /\ (pushSubscriptions world <> store ->
      status response = 500%Z
      /\ store = []
      /\ exists fields,
           request = Body (JObj fields)
           /\ truthy (assoc "type" fields) = true
           /\ to_property_key (assoc "type" fields) = Throws (ErrorObj unconvertible)
           /\ truthy (assoc "subscription" fields) = true
           /\ pushSubscriptions world = [assoc "subscription" fields]).
Proof.
  intros world. subst world.
  pose proof (handle_cases request net store) as H.
  destruct (handle request net store) as [r w]. simpl.
  intros -> Hstatus. inversion H; subst; simpl in *; try done.
  split; [done|]. split; [done|]. intros Hchanged. split; [done|].
  unfold snapshot in *.
  destruct store as [|x store]; [|done]. split; [done|]. simpl in *.
  destruct (truthy (assoc "subscription" fields)) eqn:Hsub; [|done].
  by exists fields.
Qed.

(** X3. A body that is JSON but carries neither a truthy subscription nor a
    truthy type (an empty object, an array, a number, a string, or fields
    that are null, false, 0 or empty) is answered with status 400 and the
    invalid-body error. *)
Theorem invalid_body_rejected (body : json) (net : Net) (store : list value) :
  body <> JNull ->
  truthy (get_opt (Some body) "subscription") = false ->
  truthy (get_opt (Some body) "type") = false ->
  handle (Body body) net store
  = (Ok invalid_body, {| pushSubscriptions := store; sendLog := [] |}).
Proof.
  intros Hnull Hsub Hty.
  unfold handle, POST, try_catch, bind, lift. cbn [request_json].
  assert (forall k, get (Some body) k = Ok (get_opt (Some body) k)) as Hget
    by (intros k; by destruct body).
  by rewrite !Hget, Hsub, Hty.
Qed.

Lemma dispatch_status (fields : list (string * json)) (net : Net)
    (store : list value) (key : string) (response : Response) :
  truthy (assoc "type" fields) = true ->
  to_property_key (assoc "type" fields) = Ok key ->
  fst (handle (Body (JObj fields)) net store) = Ok response ->
  status response = 200%Z \/ status response = 400%Z.
Proof.
  intros Hty Hkey. unfold handle. rewrite POST_dispatch by done. unfold try_catch.
  rewrite (send_notifications_converted _ _ _ key) by done.
  destruct (length (snapshot store (assoc "subscription" fields)) =? 0)%nat.
  - intros [= <-]. by right.
  - unfold bind. rewrite log_sends_run. unfold lift.
    destruct (fan_out net _) as [results|e|] eqn:Hfan; simpl; [| |done].
    + intros [= <-]. by left.
    + by destruct (fan_out_never_rejects _ _ _ Hfan).
Qed.

(** X4. On a store that requests have produced, status 500 is the answer to
    exactly three kinds of request: a body that is not JSON, the JSON value
    null, and an object whose type is truthy and cannot be converted to a
    string (for instance an object with an own toString entry). *)
Theorem server_error_only_for_unreadable_body (request : RequestBody) (net : Net)
    (store : list value) :
  reachable store ->
  (exists response,
     fst (handle request net store) = Ok response /\ status response = 500%Z)
  <-> ((exists message, request = BadJson message)
       \/ request = Body JNull
       \/ (exists fields e,
             request = Body (JObj fields)
             /\ truthy (assoc "type" fields) = true
             /\ to_property_key (assoc "type" fields) = Throws e)).
Proof.
  intros Hreach. destruct (reachable_ok store Hreach) as [Htruthy _]. split.
  - intros (response & Hrun & Hstatus).
    destruct request as [message|body]; [left; by exists message|].
    destruct (truthy (get_opt (Some body) "type")) eqn:Hty.
    { destruct body as [| | | | |fields]; try done. right. right.
      destruct (to_property_key (assoc "type" fields)) as [key|e|] eqn:Hkey.
      - destruct (dispatch_status fields net store key response Hty Hkey Hrun)
          as [H|H]; rewrite H in Hstatus; done.
      - by exists fields, e.
      - by destruct (to_property_key_settles (assoc "type" fields)). }
    assert (body = JNull
            \/ (get (Some body) "subscription" = Ok (get_opt (Some body) "subscription")
                /\ get (Some body) "type" = Ok (get_opt (Some body) "type")))
      as [->|[Hs Ht]] by (destruct body; auto); [by right; left|]. exfalso.
    revert Hrun. unfold handle, POST, try_catch, bind at 1 2 3, lift.
    cbn [request_json]. rewrite Hs, Ht, Hty.
    destruct (truthy (get_opt (Some body) "subscription") && negb false) eqn:Hreg.
    + apply andb_true_iff in Hreg as [Hsub _].
      rewrite store_subscription_run by done. intros [= <-]. done.
    + intros [= <-]. done.
  - intros [[message ->] | [-> | (fields & e & -> & Hty & Hkey)]].
    + eexists; split; reflexivity.
    + eexists; split; reflexivity.
    + rewrite (handle_dispatch_unconvertible net fields store e) by done.
      eexists; split; reflexivity.
Qed.

(** X5. Whatever requests were served, the store never holds a value that
    is null or otherwise falsy, and no two stored records have strictly
    equal endpoints. *)
Theorem reachable_store_invariant (store : list value) :
  reachable store ->
  (forall i record, store !! i = Some record -> truthy record = true)
  /\ (forall i j a b,
        store !! i = Some a -> store !! j = Some b -> i <> j ->
        strict_eq (endpoint_of a) (endpoint_of b) = false).
Proof.
  intros Hreach. destruct (reachable_ok store Hreach) as [Htruthy Hdistinct]. split.
  - intros i record Hi. rewrite Forall_lookup in Htruthy. by apply (Htruthy i).
  - intros i j a b Ha Hb Hne.
    destruct (strict_eq (endpoint_of a) (endpoint_of b)) eqn:Heq; [|done].
    destruct Hne. by apply (distinct_endpoints_lookup store i j a b).
Qed.

Lemma prune_sublist (indices : list nat) (l : list value) :
  prune indices l `sublist_of` l.
Proof.
  unfold prune. revert l. induction indices as [|i indices IH]; intros l; simpl; [done|].
  etrans; [apply IH|apply sublist_delete].
Qed.

(** X6. A request that carries a type never adds to or reorders what the
    fan-out ran over: the store it leaves is a sublist of the snapshot,
    whatever the network does, and so holds at most one record more than the
    store it found. *)
Theorem dispatch_only_removes (fields : list (string * json)) (net : Net)
    (store : list value) :
  truthy (assoc "type" fields) = true ->
  pushSubscriptions (snd (handle (Body (JObj fields)) net store))
    `sublist_of` snapshot store (assoc "subscription" fields)
  /\ length (pushSubscriptions (snd (handle (Body (JObj fields)) net store)))
     <= S (length store).
Proof.
  intros Hty.
  assert (pushSubscriptions (snd (handle (Body (JObj fields)) net store))
            `sublist_of` snapshot store (assoc "subscription" fields)) as Hsub.
  { unfold handle. rewrite POST_dispatch by done. unfold try_catch.
    destruct (send_notifications_store net (assoc "type" fields)
                (assoc "subscription" fields) store [])
      as (indices & r & lg' & ->).
    destruct r as [response|e|]; simpl; apply prune_sublist. }
  split; [done|]. apply sublist_length in Hsub.
  etrans; [exact Hsub|]. unfold snapshot.
  destruct ((length store =? 0)%nat && truthy (assoc "subscription" fields));
    rewrite ?length_app; simpl; lia.
Qed.

(** X7. In a dispatch whose type converts to a string, a subscription whose
    attempt is delivered is never pruned: it stays stored, moved up by the
    number of pruned records before it. *)
Theorem delivered_subscription_kept (fields : list (string * json))
    (store : list value) (net : Net) (i : nat) (subscription : value)
    (key : string) :
  let subs := snapshot store (assoc "subscription" fields) in
  truthy (assoc "type" fields) = true ->
  to_property_key (assoc "type" fields) = Ok key ->
  Permutation (completion net) (seq 0 (length subs)) ->
  subs !! i = Some subscription ->
  outcome net i = Delivered ->
  pushSubscriptions (snd (handle (Body (JObj fields)) net store))
    !! (i - gone_count net i) = Some subscription.
Proof.
  intros subs Hty Hkey Hperm Hsub Hout.
  rewrite (handle_dispatch_run net fields key); try done.
  - simpl. fold subs. unfold survivors.
    rewrite (retained_split _ subs i subscription Hsub).
    unfold reports_gone at 2. rewrite Hout.
    assert (i <= length subs) by (apply lookup_lt_Some in Hsub; lia).
    rewrite lookup_app_r; rewrite retained_take_length by done.
    + unfold gone_count. by rewrite Nat.sub_diag.
    + unfold gone_count. done.
  - fold subs. intros Hnil. by rewrite Hnil in Hsub.
Qed.

(** X8. A dispatch request whose type converts to a string and that carries
    a subscription while nothing is stored never gets the no-subscriptions
    error: the subscription is stored without the duplicate check, one
    attempt is made for it, and it stays stored unless that attempt reports
    the endpoint gone. *)
Theorem carried_subscription_adopted (fields : list (string * json)) (net : Net)
    (key : string) :
  let subscription := assoc "subscription" fields in
  let gone := reports_gone (outcome net 0) in
  truthy (assoc "type" fields) = true ->
  to_property_key (assoc "type" fields) = Ok key ->
  truthy subscription = true ->
  completion net = [0] ->
  handle (Body (JObj fields)) net []
  = (Ok (report (assoc "type" fields)
           (if delivered (outcome net 0) then 1 else 0)
           (if delivered (outcome net 0) then 0 else 1)
           (if gone then 0 else 1)),
     {| pushSubscriptions := if gone then [] else [subscription];
        sendLog := [(subscription, payload_text key)] |}).
Proof.
  intros subscription gone Hty Hkey Hs Hcompletion.
  rewrite (handle_dispatch_run net fields key); fold subscription;
    unfold snapshot; simpl; rewrite ?Hs; simpl; try done.
  - unfold sent_count, survivors, attempts. simpl. fold gone.
    destruct (delivered (outcome net 0)), gone; reflexivity.
  - by rewrite Hcompletion.
Qed.

(** X9. Endpoint identity is strict equality, so a subscription whose
    endpoint is an object or an array matches no stored record: each
    registration of it appends one more record. *)
Theorem structured_endpoint_always_appends (fields : list (string * json))
    (net : Net) (store : list value) :
  let subscription := assoc "subscription" fields in
  reachable store ->
  truthy subscription = true ->
  truthy (assoc "type" fields) = false ->
  (exists fs, endpoint_of subscription = Some (JObj fs))
  \/ (exists items, endpoint_of subscription = Some (JArr items)) ->
  handle (Body (JObj fields)) net store
  = (Ok (stored (S (length store))),
     {| pushSubscriptions := store ++ [subscription]; sendLog := [] |}).
Proof.
  intros subscription Hreach Hs Hty Hendpoint.
  destruct (reachable_ok store Hreach) as [Htruthy _].
  rewrite handle_registration by done. fold subscription.
  assert (replace_or_append subscription store = store ++ [subscription]) as ->.
  { clear Htruthy Hreach. induction store as [|x store IH]; simpl; [done|].
    assert (matches subscription x = false) as ->.
    { unfold matches.
      destruct Hendpoint as [[fs ->]|[items ->]];
        by destruct (endpoint_of x) as [[]|]. }
    by rewrite IH. }
  by rewrite length_app, Nat.add_1_r.
Qed.

Lemma all_filled_gap {A : Type} (slots : list (option A)) (j : nat) :
  slots !! j = Some None -> all_filled slots = None.
Proof.
  revert j. induction slots as [|[a|] slots IH]; intros j Hj; simpl; [done| |done].
  destruct j as [|j]; [done|]. simpl in Hj. by rewrite (IH j).
Qed.

(** X10. There is no timeout: in a dispatch whose type converts to a string,
    when one attempt never settles, the handler never answers, although
    every subscription has been sent to, and nothing is pruned. *)
Theorem unsettled_attempt_blocks_response (fields : list (string * json))
    (net : Net) (store : list value) (j : nat) (key : string) :
  let subs := snapshot store (assoc "subscription" fields) in
  truthy (assoc "type" fields) = true ->
  to_property_key (assoc "type" fields) = Ok key ->
  j < length subs ->
  ~ In j (completion net) ->
  handle (Body (JObj fields)) net store
  = (Pending,
     {| pushSubscriptions := subs;
        sendLog := attempts key subs |}).
Proof.
  intros subs Hty Hkey Hj Hout.
  assert (fan_out net (length subs) = Pending) as Hfan.
  { unfold fan_out, promise_all.
    rewrite (all_filled_gap _ j); [done|].
    rewrite settled_slots_lookup, length_replicate.
    case_decide as Hin.
    - destruct Hin as [Hin _]. destruct Hout. by apply list_elem_of_In.
    - by apply lookup_replicate_2. }
  unfold handle. rewrite POST_dispatch by done. unfold try_catch.
  rewrite (send_notifications_converted _ _ _ key) by done. fold subs.
  destruct (length subs =? 0)%nat eqn:Hlen; [apply Nat.eqb_eq in Hlen; lia|].
  unfold bind. rewrite log_sends_run. unfold lift. by rewrite Hfan.
Qed.

(** ** The status query *)

Lemma string_or_nonempty (v : option string) (d : string) :
  d <> "" -> string_or v d <> "".
Proof.
  intros Hd. destruct v as [s|]; simpl; [|done].
  by destruct (String.eqb_spec s "").
Qed.

Lemma preview_nonempty (s : string) : s <> "" -> preview s <> "".
Proof. by destruct s. Qed.

(** X11. The status query reports vapidConfigured true for every
    environment whose public key variable is not YOUR_VAPID_PUBLIC_KEY, and
    for every environment at all when the module is one that loaded under a
    setVapidDetails that throws for that placeholder: the call of lines
    23-27 runs before any handler exists. Both keys are never empty, so the
    reported previews are the first characters of the keys in use, the
    private one included. *)
Theorem status_reports_configuration
    (setVapidDetails : string -> string -> string -> option thrown)
    (env : Env) (w : World) :
  let answer := Some (payload (GET env w)) in
  (NEXT_PUBLIC_VAPID_PUBLIC_KEY env <> Some "YOUR_VAPID_PUBLIC_KEY" ->
   get_opt answer "vapidConfigured" = Some (JBool true))
  /\ ((forall subject private,
         setVapidDetails subject "YOUR_VAPID_PUBLIC_KEY" private <> None) ->
      load setVapidDetails env = Ok tt ->
      get_opt answer "vapidConfigured" = Some (JBool true))
  /\ publicKey env <> ""
  /\ privateKey env <> ""
  /\ get_opt answer "publicKeyPreview" = Some (JStr (preview (publicKey env)))
  /\ get_opt answer "privateKeyPreview" = Some (JStr (preview (privateKey env))).
Proof.
  intros answer.
  assert (publicKey env <> "") as Hpub by (by apply string_or_nonempty).
  assert (privateKey env <> "") as Hpriv by (by apply string_or_nonempty).
  split; [|split; [|split; [done|split; [done|split]]]].
  - intros Hset. subst answer. simpl. do 2 f_equal. apply negb_true_iff.
    destruct (String.eqb_spec (publicKey env) "YOUR_VAPID_PUBLIC_KEY") as [Heq|];
      [|done].
    exfalso. revert Heq. unfold publicKey.
    destruct (NEXT_PUBLIC_VAPID_PUBLIC_KEY env) as [s|]; simpl; [|done].
    destruct (String.eqb_spec s ""); [done|]. intros ->. by apply Hset.
  - intros Hrejects. unfold load. subst answer. simpl.
    destruct (String.eqb_spec (publicKey env) "YOUR_VAPID_PUBLIC_KEY") as [->|];
      [|done].
    destruct (setVapidDetails _ _ _) eqn:Hcall; [done|].
    by apply Hrejects in Hcall.
  - subst answer. simpl. unfold preview_or_undefined. simpl.
    destruct (String.eqb_spec (preview (publicKey env)) "") as [Hempty|]; [|done].
    by apply preview_nonempty in Hempty.
  - subst answer. simpl. unfold preview_or_undefined. simpl.
    destruct (String.eqb_spec (preview (privateKey env)) "") as [Hempty|]; [|done].
    by apply preview_nonempty in Hempty.
Qed.

(** X12. The count a 200 answer of POST carries (subscriptionsCount after a
    registration, totalSubscriptions after a dispatch) is the count the
    status query reports right after it. *)
Theorem status_count_agrees (request : RequestBody) (net : Net)
    (store : list value) (env : Env) (response : Response) :
  let count :=
    get_opt (Some (payload (GET env (snd (handle request net store)))))
      "subscriptionsCount" in
  fst (handle request net store) = Ok response ->
  status response = 200%Z ->
  get_opt (Some (payload response)) "subscriptionsCount" = count
  \/ get_opt (Some (payload response)) "totalSubscriptions" = count.
Proof.
  intros count. subst count.
  pose proof (handle_cases request net store) as H.
  destruct (handle request net store) as [r w]. simpl.
  intros -> Hstatus. inversion H; subst; simpl in *; try done.
  - by left.
  - right. by destruct notificationType.
Qed.

(** ** Further properties of the service worker *)

Lemma assoc_set_field (k k' : string) (v : json) (fs : list (string * json)) :
  assoc k' (set_field k v fs) = if String.eqb k' k then Some v else assoc k' fs.
Proof.
  induction fs as [|[k0 v0] fs IH]; simpl.
  - by destruct (String.eqb k' k).
  - destruct (String.eqb_spec k k0) as [->|Hne]; simpl.
    + by destruct (String.eqb k' k0).
    + rewrite IH. destruct (String.eqb_spec k' k0) as [->|]; [|done].
      by destruct (String.eqb_spec k0 k).
Qed.

Lemma assoc_absent {A : Type} (k : string) (fs : list (string * A)) :
  ~ In k (List.map fst fs) -> assoc k fs = None.
Proof.
  induction fs as [|[k0 v0] fs IH]; simpl; [done|].
  intros Hn. destruct (String.eqb_spec k k0) as [->|]; [|apply IH]; tauto.
Qed.

Lemma assoc_spread (fs target : list (string * json)) (k : string) :
  List.NoDup (List.map fst fs) ->
  assoc k (spread target (Some (JObj fs)))
  = match assoc k fs with
    | Some v => Some v
    | None => assoc k target
    end.
Proof.
  unfold spread. simpl. intros Hnodup. revert target.
  induction fs as [|[k0 v0] fs IH]; intros target; simpl; [done|].
  inversion Hnodup as [|? ? Hfresh Hrest]; subst.
  rewrite IH by done. rewrite assoc_set_field.
  destruct (String.eqb_spec k k0) as [->|]; [|done].
  by rewrite assoc_absent.
Qed.



Section ParsedPush.
Variable fields : list (string * json).
Hypothesis fields_distinct : List.NoDup (List.map fst fields).

Lemma on_push_object :
  on_push (Some (Parses (JObj fields)))
  = [{| title := or_else (assoc "title" fields) (Some (JStr "New Notification"));
        options :=
          JObj (set_field "data"
                  (JObj (spread
                           [("url", or_default (get_opt (assoc "data" fields) "url")
                                      (JStr "/"));
                            ("type", or_default (get_opt (assoc "data" fields) "type")
                                       (JStr "unknown"))]
                           (assoc "data" fields)))
                  (spread defaultOptions (Some (JObj fields)))) |}].
Proof. reflexivity. Qed.

(** X14. For a body that is an object, every field of the body other than
    data reaches the notification options unchanged, and the five defaults
    (icon, badge, vibrate, requireInteraction, renotify) are used only for
    the fields the body lacks; the title is the body's title when truthy and
    New Notification otherwise. *)
Theorem push_fields_override_defaults (k : string) :
  k <> "data" ->
  exists shown,
    on_push (Some (Parses (JObj fields))) = [shown]
    /\ title shown = or_else (assoc "title" fields) (Some (JStr "New Notification"))
    /\ get_opt (Some (options shown)) k
       = match assoc k fields with
         | Some v => Some v
         | None => assoc k defaultOptions
         end.
Proof.
  intros Hk. eexists. split; [apply on_push_object|]. split; [done|].
  cbn [options get_opt]. rewrite assoc_set_field.
  destruct (String.eqb_spec k "data"); [done|].
  by apply assoc_spread.
Qed.

(** X15. When the data of the body is an object, the data of the
    notification holds every field of it unchanged; url and type are filled
    in, with the root path and unknown, only when the body's data has no
    such field: a url that is present but empty is kept as it is. *)
Theorem push_data_preserved (dfields : list (string * json)) (k : string) :
  assoc "data" fields = Some (JObj dfields) ->
  List.NoDup (List.map fst dfields) ->
  exists shown,
    on_push (Some (Parses (JObj fields))) = [shown]
    /\ get_opt (get_opt (Some (options shown)) "data") k
       = match assoc k dfields with
         | Some v => Some v
         | None =>
             if String.eqb k "url" then Some (JStr "/")
             else if String.eqb k "type" then Some (JStr "unknown")
             else None
         end.
Proof.
  intros Hdata Hdistinct. eexists. split; [apply on_push_object|].
  cbn [options get_opt]. rewrite assoc_set_field. simpl String.eqb.
  cbn [get_opt]. rewrite Hdata, assoc_spread by done.
  destruct (assoc k dfields) eqn:Hk; [done|]. cbn [assoc get_opt].
  destruct (String.eqb_spec k "url") as [->|_]; [by rewrite Hk|].
  destruct (String.eqb_spec k "type") as [->|_]; [by rewrite Hk|done].
Qed.

(** X16. From push to click: for an object body, the URL a click on the
    shown notification goes to is the url of the body's data when that is
    truthy, and the root path otherwise (no data, data without url, or an
    empty url). *)
Theorem pushed_url_is_click_target :
  (assoc "data" fields = None
   \/ exists dfields, assoc "data" fields = Some (JObj dfields)
                      /\ List.NoDup (List.map fst dfields)) ->
  exists shown,
    on_push (Some (Parses (JObj fields))) = [shown]
    /\ urlToOpen (get_opt (Some (options shown)) "data")
       = or_default (get_opt (assoc "data" fields) "url") (JStr "/").
Proof.
  intros Hdata. eexists. split; [apply on_push_object|].
  cbn [options get_opt]. rewrite assoc_set_field. simpl String.eqb. cbv iota.
  unfold urlToOpen. unfold or_else at 1. cbn [truthy get_opt].
  destruct Hdata as [Hnone|(dfields & Hsome & Hdistinct)].
  - rewrite Hnone. reflexivity.
  - rewrite Hsome, assoc_spread by done. cbn [get_opt].
    destruct (assoc "url" dfields) as [u|] eqn:Hu; [|reflexivity].
    unfold or_default, or_else. destruct (truthy (Some u)); reflexivity.
Qed.
End ParsedPush.

Lemma focus_existing_shape (target : json) (clientList : list Client) (k : nat) :
  match focus_existing target clientList k with
  | None => Forall (fun c => has_focus c = false) clientList
  | Some (made, _, _) =>
      exists i client,
        k <= i /\ clientList !! (i - k) = Some client /\ has_focus client = true
        /\ (made = [ClientFocus i] \/ made = [ClientFocus i; ClientNavigate i target])
  end.
Proof.
  revert k. induction clientList as [|c l IH]; intros k; simpl; [done|].
  destruct (has_focus c) eqn:Hc.
  - destruct (negb _); exists k, c; rewrite Nat.sub_diag; auto.
  - specialize (IH (S k)). destruct (focus_existing target l (S k)) as [[[made lines] r]|].
    + destruct IH as (i & client & Hi & Hl & Hf & Hm). exists i, client.
      split; [lia|]. split; [|done].
      replace (i - k) with (S (i - S k)) by lia. done.
    + by constructor.
Qed.

(** X17. A click works on at most one window: besides closing the
    notification it makes no call, or focuses one client, or focuses and
    navigates that same client, or opens one window; it never focuses a
    client and opens a window, and the URL it uses is never empty or
    otherwise falsy. *)
Theorem click_touches_one_window (env : Clients) (data : value) (action : string) :
  let target := urlToOpen data in
  truthy (Some target) = true
  /\ (calls (on_notificationclick env data action) = [NotificationClose]
      \/ (exists i, calls (on_notificationclick env data action)
                    = [NotificationClose; ClientFocus i])
      \/ (exists i, calls (on_notificationclick env data action)
                    = [NotificationClose; ClientFocus i; ClientNavigate i target])
      \/ calls (on_notificationclick env data action)
         = [NotificationClose; OpenWindow target]).
Proof.
  intros target. split.
  - subst target. unfold urlToOpen, or_default, or_else.
    destruct (truthy (get_opt _ "url")) eqn:Hu; [|done].
    by destruct (get_opt _ "url").
  - unfold on_notificationclick. fold target.
    destruct (String.eqb action "dismiss"); [by left|].
    destruct (matchAll env) as [l|e|]; [|by left..].
    unfold open_app. pose proof (focus_existing_shape target l 0) as Hshape.
    destruct (focus_existing target l 0) as [[[made lines] r]|].
    + destruct Hshape as (i & client & _ & _ & _ & [-> | ->]);
        destruct r; simpl; eauto.
    + destruct (openWindow env) as [[| |]|]; simpl; auto.
Qed.

(** ** Install, activate, fetch *)

(** X18. Activation hands to caches.delete every cache name other than the
    current one and leaves exactly the caches with the current name,
    contents untouched; a second activation deletes nothing. *)
Theorem activate_keeps_only_current (caches : CacheStorage) :
  let '(deleted, kept) := on_activate caches in
  (forall name, In name deleted <-> In name (List.map fst caches) /\ name <> CACHE_NAME)
  /\ (forall name cache, In (name, cache) kept
                         <-> In (name, cache) caches /\ name = CACHE_NAME)
  /\ on_activate kept = ([], kept).
Proof.
  unfold on_activate. split; [|split].
  - intros name. rewrite List.filter_In, negb_true_iff.
    by destruct (String.eqb_spec name CACHE_NAME); intuition.
  - intros name cache. rewrite List.filter_In.
    by destruct (String.eqb_spec name CACHE_NAME); intuition.
  - induction caches as [|[name cache] caches IH]; [done|]. simpl.
    destruct (String.eqb_spec name CACHE_NAME) as [->|]; simpl; [|exact IH].
    injection IH as Hdel Hkept. by rewrite Hdel, Hkept.
Qed.

Lemma assoc_cache_put (a a' : string) (r : HttpResponse) (cache : Cache) :
  assoc a' (cache_put a r cache) = if String.eqb a' a then Some r else assoc a' cache.
Proof.
  induction cache as [|[a0 r0] cache IH]; simpl.
  - by destruct (String.eqb a' a).
  - destruct (String.eqb_spec a a0) as [->|Hne]; simpl.
    + by destruct (String.eqb a' a0).
    + rewrite IH. destruct (String.eqb_spec a' a0) as [->|]; [|done].
      by destruct (String.eqb_spec a0 a).
Qed.

Lemma assoc_put_all (fetched : list (string * HttpResponse)) (cache : Cache)
    (a : string) :
  List.NoDup (List.map fst fetched) ->
  assoc a (fold_left (fun c '(u, r) => cache_put u r c) fetched cache)
  = match assoc a fetched with
    | Some r => Some r
    | None => assoc a cache
    end.
Proof.
  intros Hnodup. revert cache.
  induction fetched as [|[u r] fetched IH]; intros cache; simpl; [done|].
  inversion Hnodup as [|? ? Hfresh Hrest]; subst.
  rewrite IH by done. rewrite assoc_cache_put.
  destruct (String.eqb_spec a u) as [->|]; [|done].
  by rewrite assoc_absent.
Qed.

Lemma fetch_all_ok (network : Network) (urls : list string)
    (fetched : list (string * HttpResponse)) :
  fetch_all network urls = Ok fetched ->
  List.map fst fetched = urls
  /\ forall u, In u urls ->
       exists response,
         assoc u fetched = Some response
         /\ network {| method := "GET"; address := u |} = Ok response
         /\ ok response = true.
Proof.
  revert fetched. induction urls as [|u urls IH]; intros fetched; simpl.
  - intros [= <-]. by split.
  - unfold fetch_ok at 1.
    destruct (network {| method := "GET"; address := u |}) as [r|e|] eqn:Hu;
      [destruct (ok r) eqn:Hok|..];
      destruct (fetch_all network urls) as [l|e'|]; try done.
    intros [= <-]. destruct (IH l eq_refl) as [Hkeys Hall]. split.
    + simpl. by rewrite Hkeys.
    + intros u' [<-|Hin].
      * exists r. simpl. by rewrite String.eqb_refl.
      * simpl. destruct (String.eqb_spec u' u) as [->|]; [by exists r|].
        by apply Hall.
Qed.

Lemma fetch_all_failure (network : Network) (urls : list string) (u : string) :
  In u urls ->
  (exists e, fetch_ok network u = Throws e) ->
  exists e, fetch_all network urls = Throws e.
Proof.
  intros Hin [e Hfail]. induction urls as [|u' urls IH]; [done|]. simpl.
  destruct Hin as [->|Hin].
  - rewrite Hfail. by exists e.
  - destruct (IH Hin) as [e' ->].
    destruct (fetch_ok network u'); eauto.
Qed.

Lemma update_absent (cn : string) (f : Cache -> Cache) (caches : CacheStorage) :
  ~ In cn (List.map fst caches) ->
  List.filter (fun '(name, _) => String.eqb name cn) caches = [].
Proof.
  induction caches as [|[n c] caches IH]; simpl; [done|].
  intros Hfresh. destruct (String.eqb_spec n cn) as [->|]; [tauto|].
  apply IH. tauto.
Qed.

Lemma kept_after_update (cn : string) (f : Cache -> Cache) (caches : CacheStorage) :
  List.NoDup (List.map fst caches) ->
  List.filter (fun '(name, _) => String.eqb name cn)
    (update_cache cn f
       (match assoc cn caches with
        | Some _ => caches
        | None => caches ++ [(cn, [])]
        end))
  = [(cn, f (match assoc cn caches with Some c => c | None => [] end))].
Proof.
  induction caches as [|[name cache] caches IH]; intros Hnodup.
  - cbn. rewrite String.eqb_refl. cbn. by rewrite String.eqb_refl.
  - inversion Hnodup as [|? ? Hfresh Hrest]; subst. specialize (IH Hrest).
    cbn [assoc]. destruct (String.eqb_spec cn name) as [<-|Hne].
    + cbn [update_cache]. rewrite String.eqb_refl.
      cbn [List.filter]. rewrite String.eqb_refl.
      f_equal. by apply (update_absent cn f).
    + destruct (assoc cn caches) as [c|] eqn:Hfound;
        cbn [update_cache List.filter app];
        (destruct (String.eqb_spec cn name); [done|]);
        cbn [List.filter];
        (destruct (String.eqb_spec name cn) as [->|]; [done|]);
        exact IH.
Qed.

Lemma current_cache_after (f : Cache -> Cache) (caches : CacheStorage) :
  List.NoDup (List.map fst caches) ->
  snd (on_activate (update_cache CACHE_NAME f (caches_open CACHE_NAME caches)))
  = [(CACHE_NAME,
      f (match assoc CACHE_NAME caches with Some c => c | None => [] end))].
Proof. apply kept_after_update. Qed.

(** X19. From install to fetch: once the install succeeded and the worker
    was activated, a GET for any of the four precached URLs is answered with
    the response fetched at install time, and the network is not called,
    whatever its state. *)
Theorem precached_urls_served_offline (network offline : Network)
    (caches : CacheStorage) (u : string) :
  let installed := snd (on_activate (snd (on_install network caches))) in
  List.NoDup (List.map fst caches) ->
  fst (on_install network caches) = Ok tt ->
  In u urlsToCache ->
  exists response,
    network {| method := "GET"; address := u |} = Ok response
    /\ ok response = true
    /\ on_fetch offline installed {| method := "GET"; address := u |}
       = (Ok response, []).
Proof.
  intros installed Hnodup Hinstall Hin. subst installed.
  revert Hinstall. unfold on_install.
  destruct (fetch_all network urlsToCache) as [fetched|e|] eqn:Hfetch; [|done..].
  intros _. destruct (fetch_all_ok _ _ _ Hfetch) as [Hkeys Hall].
  destruct (Hall u Hin) as (response & Hassoc & Hnet & Hok).
  exists response. split; [done|]. split; [done|].
  simpl snd at 2. rewrite current_cache_after by done.
  unfold on_fetch. cbn [caches_match method address]. simpl String.eqb.
  rewrite assoc_put_all, Hassoc; [done|].
  rewrite Hkeys. unfold urlsToCache.
  repeat constructor; simpl; intuition discriminate.
Qed.

(** X20. Install is all or nothing: when one of the four precache requests
    fails, or is answered with a response that is not ok, the install
    promise rejects, also while other requests are still pending, and no
    response is added to any cache. *)
Theorem failed_precache_stores_nothing (network : Network) (caches : CacheStorage)
    (u : string) :
  In u urlsToCache ->
  (exists e, network {| method := "GET"; address := u |} = Throws e)
  \/ (exists response, network {| method := "GET"; address := u |} = Ok response
                       /\ ok response = false) ->
  (exists e, fst (on_install network caches) = Throws e)
  /\ snd (on_install network caches) = caches_open CACHE_NAME caches
  /\ forall request,
       caches_match request (snd (on_install network caches))
       = caches_match request caches.
Proof.
  intros Hin Hfail.
  assert (exists e, fetch_ok network u = Throws e) as Hbad.
  { unfold fetch_ok. destruct Hfail as [[e ->]|(response & -> & ->)]; eauto. }
  destruct (fetch_all_failure network urlsToCache u Hin Hbad) as [e He].
  unfold on_install. rewrite He. simpl. split; [by exists e|]. split; [done|].
  intros request. unfold caches_open.
  destruct (assoc CACHE_NAME caches); [done|].
  induction caches as [|[name cache] caches IH]; simpl.
  - by destruct (String.eqb (method request) "GET").
  - by rewrite IH.
Qed.

(** ** The install button *)

Import InstallButton.

(** X21. On iOS Safari the component does nothing at all: for every
    sequence of events the button is not rendered, no install prompt is
    captured and none is shown. *)
Theorem ios_safari_never_renders (callback : Callback) (userAgent : option string)
    (events : list Event) :
  detectIOS userAgent = true ->
  rendered (fst (run_events callback (mounted userAgent) events)) = false
  /\ snd (run_events callback (mounted userAgent) events) = [].
Proof.
  intros Hios.
  assert (isIOS (mounted userAgent) = true /\ listening (mounted userAgent) = false)
    as Hinv by (unfold mounted; simpl; by rewrite Hios).
  revert Hinv. generalize (mounted userAgent).
  induction events as [|event events IH]; intros s [Hi Hl]; simpl.
  - unfold rendered. by rewrite Hi.
  - assert (exists s', step callback s event = (s', [])
                       /\ isIOS s' = true /\ listening s' = false) as (s' & -> & Hinv').
    { destruct event; simpl; unfold rendered; rewrite ?Hl, ?Hi; eauto. }
    specialize (IH s' Hinv').
    destruct (run_events callback s' events) as [final later]. simpl in *.
    by destruct IH.
Qed.

Lemma step_keeps_used (callback : Callback) (s : State) (event : Event) :
  isInstallPromptUsed s = true ->
  isInstallPromptUsed (fst (step callback s event)) = true
  /\ forall id, ~ In (Prompt id) (snd (step callback s event)).
Proof.
  intros Hused. destruct event as [captured| |run|]; simpl.
  - destruct (listening s); simpl; split; auto; intros id [H|[]]; discriminate.
  - destruct (listening s); simpl; split; auto.
  - unfold rendered. rewrite Hused. destruct (isIOS s); [by split; auto|].
    destruct (deferredPrompt s); simpl; split; auto.
  - split; auto.
Qed.

Lemma used_hides_for_good (callback : Callback) (s : State)
    (events : list Event) :
  isInstallPromptUsed s = true ->
  rendered (fst (run_events callback s events)) = false
  /\ forall id, ~ In (Prompt id) (snd (run_events callback s events)).
Proof.
  revert s. induction events as [|event events IH]; intros s Hused; simpl.
  - split; [|auto]. unfold rendered. rewrite Hused.
    destruct (isIOS s); [done|]. by destruct (deferredPrompt s).
  - destruct (step_keeps_used callback s event Hused) as [Hused' Hquiet].
    destruct (step callback s event) as [s' done']. simpl in *.
    destruct (IH s' Hused') as [Hhidden Hlater].
    destruct (run_events callback s' events) as [final later]. simpl in *.
    split; [done|]. intros id Hin. apply in_app_or in Hin as [Hin|Hin].
    + by apply (Hquiet id).
    + by apply (Hlater id).
Qed.

(** X22. Once the appinstalled event has arrived at a listening component,
    or the prompt was accepted through the rendered button and the callback,
    if there is one, returned normally, the button is gone for good: no
    later event renders it again or shows a prompt. An accepted prompt whose
    callback throws leaves the state as it was, the button included. *)
Theorem installed_hides_for_good (callback : Callback) (s : State)
    (events : list Event) :
  let installed := fst (step callback s AppInstalled) in
  let accepted := fst (step callback s (Click (Chose Accepted))) in
  (listening s = true ->
   rendered (fst (run_events callback installed events)) = false
   /\ forall id, ~ In (Prompt id) (snd (run_events callback installed events)))
  /\ (rendered s = true ->
      (forall f, callback = Some f -> f Accepted = None) ->
      rendered (fst (run_events callback accepted events)) = false
      /\ forall id, ~ In (Prompt id) (snd (run_events callback accepted events)))
  /\ (rendered s = true ->
      forall f e, callback = Some f -> f Accepted = Some e ->
      accepted = s /\ rendered accepted = true).
Proof.
  intros installed accepted. split; [|split].
  - intros Hlistening. apply used_hides_for_good.
    subst installed. simpl. by rewrite Hlistening.
  - intros Hrendered Hcallback. apply used_hides_for_good.
    subst accepted. simpl. rewrite Hrendered. unfold handleInstallClick.
    unfold rendered in Hrendered. destruct (isIOS s); [done|].
    destruct (deferredPrompt s) as [captured|]; [|done].
    destruct callback as [f|]; [rewrite (Hcallback f eq_refl)|]; reflexivity.
  - intros Hrendered f e -> Hthrows.
    assert (accepted = s) as ->; [|done].
    subst accepted. simpl. rewrite Hrendered. unfold handleInstallClick.
    unfold rendered in Hrendered. destruct (isIOS s); [done|].
    destruct (deferredPrompt s) as [captured|]; [|done].
    by rewrite Hthrows.
Qed.

(** X23. A click whose prompt the user answers, and whose callback, if
    there is one, returns normally, hides the button whatever the answer, a
    dismissal included; the next beforeinstallprompt event brings it back
    after a dismissal and not after an acceptance. When the callback throws,
    or the prompt itself fails, the state is left as it was and the button
    stays. *)
Theorem answered_prompt_hides_button (callback : Callback) (s : State)
    (c : Choice) (id : nat) (e : thrown) :
  let answered := fst (step callback s (Click (Chose c))) in
  rendered s = true ->
  listening s = true ->
  ((forall f, callback = Some f -> f c = None) ->
   rendered answered = false
   /\ rendered (fst (step callback answered (BeforeInstallPrompt id)))
      = match c with Dismissed => true | Accepted => false end)
  /\ (forall f e', callback = Some f -> f c = Some e' ->
      answered = s /\ rendered answered = true)
  /\ fst (step callback s (Click (PromptRejects e))) = s.
Proof.
  intros answered Hrendered Hlistening.
  pose proof Hrendered as Hshown. unfold rendered in Hshown.
  destruct (isIOS s) eqn:Hios; [done|].
  destruct (deferredPrompt s) as [captured|] eqn:Hprompt; [|done].
  apply negb_true_iff in Hshown.
  split; [|split].
  - intros Hcallback.
    assert (answered
            = {| deferredPrompt := None; isIOS := false;
                 isInstallPromptUsed := match c with
                                        | Accepted => true
                                        | Dismissed => false
                                        end;
                 listening := true |}) as ->.
    { subst answered. unfold step. rewrite Hrendered. unfold handleInstallClick.
      rewrite Hprompt, Hios, Hshown, Hlistening.
      destruct callback as [f|]; [rewrite (Hcallback f eq_refl)|]; reflexivity. }
    split; [done|]. by destruct c.
  - intros f e' -> Hthrows.
    assert (answered = s) as ->; [|done].
    subst answered. unfold step. rewrite Hrendered. unfold handleInstallClick.
    by rewrite Hprompt, Hthrows.
  - unfold step. rewrite Hrendered. unfold handleInstallClick. by rewrite Hprompt.
Qed.

Lemma prompt_needs_capture (callback : Callback) (s : State) (event : Event)
    (id : nat) :
  In (Prompt id) (snd (step callback s event)) -> deferredPrompt s = Some id.
Proof.
  destruct event as [id'| |run|]; simpl.
  - destruct (listening s); simpl; [intros [H|[]]; discriminate|done].
  - by destruct (listening s).
  - destruct (rendered s); [|done]. unfold handleInstallClick.
    destruct (deferredPrompt s) as [captured|]; [|simpl; intros [H|[]]; discriminate].
    destruct run as [e|e|c]; simpl.
    + intros [[= ->]|[H|[]]]; [done|discriminate].
    + intros [[= ->]|[H|[]]]; [done|discriminate].
    + destruct callback as [f|]; [destruct (f c)|]; simpl;
        intros H; repeat (destruct H as [H|H]; try discriminate; try done);
        by injection H as ->.
  - done.
Qed.

Lemma capture_is_announced (callback : Callback) (s : State) (event : Event)
    (id : nat) :
  deferredPrompt (fst (step callback s event)) = Some id ->
  deferredPrompt s = Some id \/ In (PreventDefault id) (snd (step callback s event)).
Proof.
  destruct event as [id'| |run|]; simpl.
  - destruct (listening s); simpl; [|by left]. intros [= ->]. right. by left.
  - destruct (listening s); simpl; [done|by left].
  - destruct (rendered s); [|by left]. unfold handleInstallClick.
    destruct (deferredPrompt s) as [captured|] eqn:Hp; [|simpl; rewrite Hp; by left].
    destruct run as [e|e|c]; simpl; try (rewrite Hp; by left).
    destruct callback as [f|]; [destruct (f c)|]; simpl; try done.
    rewrite Hp. by left.
  - by left.
Qed.

(** X24. The component only ever shows a prompt it has captured: in every
    run from the mounted state, a prompt() call on an event comes after the
    preventDefault() on that same beforeinstallprompt event. *)
Theorem prompts_are_captured_events (callback : Callback)
    (userAgent : option string) (events : list Event) (id : nat) :
  In (Prompt id) (snd (run_events callback (mounted userAgent) events)) ->
  exists before after,
    snd (run_events callback (mounted userAgent) events)
    = before ++ Prompt id :: after
    /\ In (PreventDefault id) before.
Proof.
  assert (forall evs s seen,
            (forall i, deferredPrompt s = Some i -> In (PreventDefault i) seen) ->
            In (Prompt id) (snd (run_events callback s evs)) ->
            exists before after,
              snd (run_events callback s evs) = before ++ Prompt id :: after
              /\ In (PreventDefault id) (seen ++ before)) as Hgen.
  { induction evs as [|event evs IH]; intros s seen Hseen; simpl; [done|].
    pose proof (prompt_needs_capture callback s event id) as Hneeds.
    pose proof (fun i => capture_is_announced callback s event i) as Hannounced.
    destruct (step callback s event) as [s' done'] eqn:Hstep. simpl in *.
    specialize (IH s' (seen ++ done')).
    destruct (run_events callback s' evs) as [final later]. simpl in *.
    intros Hin. apply in_app_or in Hin as [Hin|Hin].
    - apply in_split in Hin as (l1 & l2 & ->).
      exists l1, (l2 ++ later). split; [by rewrite <- app_assoc|].
      apply in_or_app. left. apply Hseen, Hneeds.
      apply in_or_app. right. by left.
    - destruct IH as (before & after & -> & Hb); [|done|].
      + intros i Hi. apply in_or_app.
        destruct (Hannounced i Hi) as [Hold|Hnew]; [left; by apply Hseen|by right].
      + exists (done' ++ before), after. split; [by rewrite <- app_assoc|].
        by rewrite app_assoc. }
  intros Hin. destruct (Hgen events (mounted userAgent) [] ) as (b & a & Heq & Hb);
    [done|done|]. by exists b, a.
Qed.

(** ** The key conversion of the page *)

Import Page.

Lemma length_repeat_eq (n : nat) : String.length (repeat_eq n) = n.
Proof. induction n as [|n IH]; simpl; [done|]. by rewrite IH. Qed.

Lemma length_replace_char (c d : ascii) (s : string) :
  String.length (replace_char c d s) = String.length s.
Proof. induction s as [|x s IH]; simpl; [done|]. by rewrite IH. Qed.

Lemma length_string_app (s t : string) :
  String.length (s ++ t)%string = String.length s + String.length t.
Proof. induction s as [|x s IH]; simpl; [done|]. by rewrite IH. Qed.

Lemma replace_char_absent (c d : ascii) (s : string) :
  ~ In c (list_ascii_of_string s) -> replace_char c d s = s.
Proof.
  induction s as [|x s IH]; simpl; [done|].
  intros Hn. destruct (Ascii.eqb_spec x c) as [->|]; [tauto|].
  rewrite IH; tauto.
Qed.

Lemma replace_char_chars (c d x : ascii) (s : string) :
  In x (list_ascii_of_string (replace_char c d s)) ->
  (x = d \/ x <> c) /\ (x = d \/ In x (list_ascii_of_string s)).
Proof.
  induction s as [|y s IH]; simpl; [done|].
  intros [Hx|Hx].
  - destruct (Ascii.eqb_spec y c) as [->|Hne]; subst; auto.
  - destruct (IH Hx) as [H1 H2]. split; [done|]. destruct H2; auto.
Qed.

Lemma charCodes_bytes (rawData : string) :
  length (charCodes rawData) = String.length rawData
  /\ Forall (fun b => 0 <= b < 256)%Z (charCodes rawData).
Proof.
  induction rawData as [|c s [IHl IHf]]; simpl; [by split|].
  split; [by rewrite IHl|]. constructor; [|done].
  pose proof (nat_ascii_bounded c). lia.
Qed.

Lemma chars_of_app (s t : string) :
  list_ascii_of_string (s ++ t)%string
  = list_ascii_of_string s ++ list_ascii_of_string t.
Proof.
  induction s as [|x s IH]; [done|].
  change (x :: list_ascii_of_string (s ++ t)%string
          = x :: (list_ascii_of_string s ++ list_ascii_of_string t)).
  by rewrite IH.
Qed.

Lemma chars_of_replaced (s : string) :
  list_ascii_of_string (replace_char "_" "/" (replace_char "-" "+" s))
  = List.map standard_char (list_ascii_of_string s).
Proof.
  induction s as [|x s IH]; simpl; [done|]. rewrite IH. f_equal.
  unfold standard_char. by destruct (Ascii.eqb_spec x "-") as [->|].
Qed.

Lemma chars_of_repeat_eq (n : nat) :
  List.map standard_char (list_ascii_of_string (repeat_eq n))
  = replicate n "="%char.
Proof. induction n as [|n IH]; simpl; [done|]. by rewrite IH. Qed.

(** X25. The text handed to atob is, character for character, the key with
    every - turned into + and every _ into /, all other characters as they
    are, followed by equals signs, fewer than four, that bring the length to
    a multiple of four; so it has neither of the two URL-safe characters,
    and a key already in the standard alphabet and of such a length is
    handed over unchanged. The array returned has one element per decoded
    character, each the byte value of that character. *)
Theorem key_conversion_shape (atob : string -> result string) (key : string) :
  let n := (4 - String.length key mod 4) mod 4 in
  list_ascii_of_string (base64 key)
  = List.map (fun c => if Ascii.eqb c "-" then "+"%char
                       else if Ascii.eqb c "_" then "/"%char
                       else c)
      (list_ascii_of_string key)
    ++ replicate n "="%char
  /\ n < 4
  /\ (String.length key + n) mod 4 = 0
  /\ String.length (base64 key) = String.length key + n
  /\ (forall c, In c (list_ascii_of_string (base64 key)) ->
        c <> "-"%char /\ c <> "_"%char)
  /\ (String.length key mod 4 = 0 ->
      ~ In "-"%char (list_ascii_of_string key) ->
      ~ In "_"%char (list_ascii_of_string key) ->
      base64 key = key)
  /\ (forall bytes,
        urlBase64ToUint8Array atob key = Ok bytes ->
        exists rawData,
          atob (base64 key) = Ok rawData
          /\ bytes = List.map (fun c => Z.of_nat (nat_of_ascii c))
                       (list_ascii_of_string rawData)
          /\ length bytes = String.length rawData
          /\ Forall (fun b => 0 <= b < 256)%Z bytes).
Proof.
  intros n.
  assert (String.length (base64 key) = String.length key + n) as Hlen.
  { unfold base64, padding.
    by rewrite !length_replace_char, length_string_app, length_repeat_eq. }
  pose proof (Nat.mod_upper_bound (String.length key) 4 ltac:(lia)) as Hr.
  pose proof (Nat.div_mod_eq (String.length key) 4) as Hdiv.
  assert (n = match String.length key mod 4 with 0 => 0 | r => 4 - r end) as Hpad.
  { subst n. by destruct (String.length key mod 4) as [|[|[|[|r]]]]. }
  split; [|split; [|split; [|split; [done|split; [|split]]]]].
  - unfold base64, padding. fold n.
    rewrite chars_of_replaced, chars_of_app, List.map_app, chars_of_repeat_eq.
    done.
  - rewrite Hpad. destruct (String.length key mod 4) as [|[|[|[|r]]]]; lia.
  - rewrite Hpad.
    destruct (String.length key mod 4) as [|[|[|[|r]]]] eqn:Hmod; [| | | |lia].
    + by rewrite Nat.add_0_r.
    + replace (String.length key + (4 - 1))
        with ((String.length key `div` 4 + 1) * 4) by lia.
      apply Nat.Div0.mod_mul.
    + replace (String.length key + (4 - 2))
        with ((String.length key `div` 4 + 1) * 4) by lia.
      apply Nat.Div0.mod_mul.
    + replace (String.length key + (4 - 3))
        with ((String.length key `div` 4 + 1) * 4) by lia.
      apply Nat.Div0.mod_mul.
  - intros c Hin. unfold base64 in Hin.
    apply replace_char_chars in Hin as [Hunder [->|Hin]].
    + split; discriminate.
    + apply replace_char_chars in Hin as [Hdash _]. split.
      * destruct Hdash as [->|]; [discriminate|done].
      * destruct Hunder as [->|]; [discriminate|done].
  - intros Hmod Hdash Hunder. unfold base64, padding. rewrite Hmod. simpl repeat_eq.
    assert ((key ++ "")%string = key) as ->
      by (clear; induction key as [|x s IH];
          [done|change (String x (s ++ "")%string = String x s); by rewrite IH]).
    rewrite (replace_char_absent "-" "+" key) by done.
    by apply replace_char_absent.
  - intros bytes. unfold urlBase64ToUint8Array.
    destruct (atob (base64 key)) as [rawData|e|]; [|done..].
    intros [= <-]. exists rawData. split; [done|]. split.
    + clear. induction rawData as [|c s IH]; simpl; [done|]. by rewrite IH.
    + apply charCodes_bytes.
Qed.

(** ** From the catalog to the click *)

(** X26. Each of the three catalog payloads, as the route serialises it,
    is shown by the worker as one notification under the payload's own
    title, tag, icon and actions, with the worker's default for
    requireInteraction; its data keeps the event type, and a click other
    than dismiss goes to the payload's own url. *)
Theorem catalog_payload_reaches_click (t : string) (p : json) :
  known_event t ->
  payload_text t = Some p ->
  exists shown,
    on_push (Some (Parses p)) = [shown]
    /\ title shown = get_opt (Some p) "title"
    /\ truthy (title shown) = true
    /\ get_opt (Some (options shown)) "tag" = Some (JStr t)
    /\ get_opt (Some (options shown)) "icon" = get_opt (Some p) "icon"
    /\ get_opt (Some (options shown)) "actions" = get_opt (Some p) "actions"
    /\ get_opt (Some (options shown)) "requireInteraction" = Some (JBool true)
    /\ get_opt (get_opt (Some (options shown)) "data") "type" = Some (JStr t)
    /\ Some (urlToOpen (get_opt (Some (options shown)) "data"))
       = get_opt (get_opt (Some p) "data") "url".
Proof.
  unfold known_event. simpl.
  intros [<-|[<-|[<-|[]]]] [= <-]; eexists; (split; [reflexivity|]);
    repeat split; reflexivity.
Qed.

Lemma first_match_lookup (subscription : value) (l : list value) (k : nat) :
  first_match subscription l = Some k ->
  exists old, l !! k = Some old /\ matches subscription old = true.
Proof.
  revert k. induction l as [|x l IH]; intros k; simpl; [done|].
  destruct (matches subscription x) eqn:Hm.
  - intros [= <-]. by exists x.
  - destruct (first_match subscription l) as [k'|]; [|done].
    intros [= <-]. by apply IH.
Qed.

(** X27. A registration touches one record at most: every stored record
    whose endpoint differs from the new subscription's stays where it is,
    unchanged, and the count grows by one exactly when no stored record has
    that endpoint. *)
Theorem registration_leaves_other_records (fields : list (string * json))
    (net : Net) (store : list value) :
  let subscription := assoc "subscription" fields in
  let after := pushSubscriptions (snd (handle (Body (JObj fields)) net store)) in
  reachable store ->
  truthy subscription = true ->
  truthy (assoc "type" fields) = false ->
  (forall j record,
     store !! j = Some record ->
     strict_eq (endpoint_of record) (endpoint_of subscription) = false ->
     after !! j = Some record)
  /\ length after
     = length store
       + (if existsb (fun record =>
                        strict_eq (endpoint_of record) (endpoint_of subscription))
               store
          then 0 else 1).
Proof.
  intros subscription after Hreach Hs Hty.
  destruct (reachable_ok store Hreach) as [Htruthy _].
  subst after. rewrite handle_registration by done. fold subscription. simpl.
  rewrite replace_or_append_first_match. split.
  - intros j record Hj Hdiff.
    destruct (first_match subscription store) as [k|] eqn:Hk.
    + destruct (first_match_lookup _ _ _ Hk) as (old & Hold & Hm).
      rewrite list_lookup_insert_ne; [done|].
      intros ->. rewrite Hj in Hold. injection Hold as ->.
      unfold matches in Hm. congruence.
    + by apply lookup_app_l_Some.
  - clear Htruthy Hreach. induction store as [|x store IH]; [done|]. simpl.
    fold (matches subscription x).
    destruct (matches subscription x); simpl.
    + rewrite ?length_insert. simpl. lia.
    + destruct (first_match subscription store) as [k|]; simpl in *;
        rewrite ?length_insert, ?length_app in *; simpl in *; lia.
Qed.

(** ** The further properties at concrete inputs *)

Lemma refused_request_changes_nothing_witness :
  sendLog (snd (handle (Body (JObj [])) quiet_net sample_store)) = []
  /\ pushSubscriptions (snd (handle (Body (JObj [])) quiet_net sample_store))
     = sample_store.
Proof.
  destruct (refused_request_changes_nothing (Body (JObj [])) quiet_net sample_store
              invalid_body) as (Hlog & Hstore & _).
  - reflexivity.
  - discriminate.
  - split; [exact Hlog|]. apply Hstore. reflexivity.
Defined.

Lemma invalid_body_rejected_witness :
  handle (Body (JArr [JStr "new_match"])) quiet_net sample_store
  = (Ok invalid_body, {| pushSubscriptions := sample_store; sendLog := [] |}).
Proof.
  apply (invalid_body_rejected (JArr [JStr "new_match"])).
  - discriminate.
  - reflexivity.
  - reflexivity.
Defined.

Lemma server_error_only_for_unreadable_body_witness :
  exists response,
    fst (handle (BadJson "Unexpected end of JSON input") quiet_net
           [endpoint_record "E1" "k1"]) = Ok response
    /\ status response = 500%Z.
Proof.
  apply (proj2 (server_error_only_for_unreadable_body
                  (BadJson "Unexpected end of JSON input") quiet_net
                  [endpoint_record "E1" "k1"] sample_store_reachable)).
  left. eexists. reflexivity.
Defined.

Lemma reachable_store_invariant_witness :
  truthy (endpoint_record "E1" "k1") = true.
Proof.
  apply (proj1 (reachable_store_invariant [endpoint_record "E1" "k1"]
                  sample_store_reachable) 0).
  reflexivity.
Defined.

Lemma dispatch_only_removes_witness :
  length (pushSubscriptions
            (snd (handle (Body (JObj [("type", JStr "new_match")])) sample_net
                    sample_store))) <= 4.
Proof.
  apply (proj2 (dispatch_only_removes [("type", JStr "new_match")] sample_net
                  sample_store eq_refl)).
Defined.

Lemma delivered_subscription_kept_witness :
  pushSubscriptions
    (snd (handle (Body (JObj [("type", JStr "new_match")])) sample_net sample_store))
    !! 0 = Some (endpoint_record "E1" "k1").
Proof.
  apply (delivered_subscription_kept [("type", JStr "new_match")] sample_store
           sample_net 0 (endpoint_record "E1" "k1") "new_match").
  - reflexivity.
  - reflexivity.
  - exact sample_completion.
  - reflexivity.
  - reflexivity.
Defined.

Lemma carried_subscription_adopted_witness :
  handle (Body (JObj [("type", JStr "new_match");
                      ("subscription", JObj [("endpoint", JStr "E9")])]))
    quiet_net []
  = (Ok (report (Some (JStr "new_match")) 1 0 1),
     {| pushSubscriptions := [Some (JObj [("endpoint", JStr "E9")])];
        sendLog := [(Some (JObj [("endpoint", JStr "E9")]),
                     payload_text "new_match")] |}).
Proof.
  apply (carried_subscription_adopted
           [("type", JStr "new_match");
            ("subscription", JObj [("endpoint", JStr "E9")])] quiet_net
           "new_match").
  - reflexivity.
  - reflexivity.
  - reflexivity.
  - reflexivity.
Defined.

Lemma structured_endpoint_always_appends_witness :
  handle (Body (JObj [("subscription", JObj [("endpoint", JObj [])])])) quiet_net
    [endpoint_record "E1" "k1"]
  = (Ok (stored 2),
     {| pushSubscriptions :=
          [endpoint_record "E1" "k1"; Some (JObj [("endpoint", JObj [])])];
        sendLog := [] |}).
Proof.
  apply (structured_endpoint_always_appends
           [("subscription", JObj [("endpoint", JObj [])])] quiet_net
           [endpoint_record "E1" "k1"]).
  - exact sample_store_reachable.
  - reflexivity.
  - reflexivity.
  - left. eexists. reflexivity.
Defined.

Lemma unsettled_attempt_blocks_response_witness :
  handle (Body (JObj [("type", JStr "new_match")])) stalled_net sample_store
  = (Pending,
     {| pushSubscriptions := sample_store;
        sendLog := attempts "new_match" sample_store |}).
Proof.
  apply (unsettled_attempt_blocks_response [("type", JStr "new_match")]
           stalled_net sample_store 2 "new_match").
  - reflexivity.
  - reflexivity.
  - simpl. lia.
  - simpl. intros [H|[H|[]]]; discriminate.
Defined.

Lemma status_reports_configuration_witness :
  get_opt
    (Some (payload
             (GET {| NEXT_PUBLIC_VAPID_PUBLIC_KEY := None; VAPID_PRIVATE_KEY := None |}
                {| pushSubscriptions := []; sendLog := [] |})))
    "vapidConfigured"
  = Some (JBool true).
Proof.
  apply (proj1 (proj2 (status_reports_configuration checks_key_length
                         {| NEXT_PUBLIC_VAPID_PUBLIC_KEY := None;
                            VAPID_PRIVATE_KEY := None |}
                         {| pushSubscriptions := []; sendLog := [] |}))).
  - intros subject private H. vm_compute in H. discriminate H.
  - reflexivity.
Defined.

Lemma status_count_agrees_witness :
  get_opt (Some (payload (stored 2))) "subscriptionsCount"
  = get_opt
      (Some (payload
               (GET {| NEXT_PUBLIC_VAPID_PUBLIC_KEY := None; VAPID_PRIVATE_KEY := None |}
                  (snd (handle (register_request "E2" "k2") quiet_net
                          [endpoint_record "E1" "k1"])))))
      "subscriptionsCount".
Proof.
  destruct (status_count_agrees (register_request "E2" "k2") quiet_net
              [endpoint_record "E1" "k1"]
              {| NEXT_PUBLIC_VAPID_PUBLIC_KEY := None; VAPID_PRIVATE_KEY := None |}
              (stored 2)) as [H|H].
  - reflexivity.
  - reflexivity.
  - exact H.
  - discriminate H.
Defined.

Lemma sample_push_distinct : List.NoDup (List.map fst sample_push).
Proof. repeat constructor; simpl; intuition discriminate. Defined.

Lemma sample_data_distinct :
  List.NoDup (List.map fst [("url", JStr ""); ("chat", JNum 7)]).
Proof. repeat constructor; simpl; intuition discriminate. Defined.

Lemma push_fields_override_defaults_witness :
  exists shown,
    on_push (Some (Parses (JObj sample_push))) = [shown]
    /\ title shown = Some (JStr "Hello")
    /\ get_opt (Some (options shown)) "icon" = Some (JStr "/custom.svg").
Proof.
  apply (push_fields_override_defaults sample_push sample_push_distinct "icon").
  discriminate.
Defined.

Lemma push_data_preserved_witness :
  exists shown,
    on_push (Some (Parses (JObj sample_push))) = [shown]
    /\ get_opt (get_opt (Some (options shown)) "data") "url" = Some (JStr "").
Proof.
  apply (push_data_preserved sample_push
           [("url", JStr ""); ("chat", JNum 7)] "url").
  - reflexivity.
  - exact sample_data_distinct.
Defined.

Lemma pushed_url_is_click_target_witness :
  exists shown,
    on_push (Some (Parses (JObj sample_push))) = [shown]
    /\ urlToOpen (get_opt (Some (options shown)) "data") = JStr "/".
Proof.
  apply (pushed_url_is_click_target sample_push).
  right. exists [("url", JStr ""); ("chat", JNum 7)].
  split; [reflexivity|exact sample_data_distinct].
Defined.

Lemma precached_urls_served_offline_witness :
  exists response,
    online {| method := "GET"; address := "/manifest.json" |} = Ok response
    /\ ok response = true
    /\ on_fetch offline (snd (on_activate (snd (on_install online []))))
         {| method := "GET"; address := "/manifest.json" |}
       = (Ok response, []).
Proof.
  apply (precached_urls_served_offline online offline [] "/manifest.json").
  - constructor.
  - reflexivity.
  - right. left. reflexivity.
Defined.

Lemma failed_precache_stores_nothing_witness :
  (exists e, fst (on_install manifest_missing []) = Throws e)
  /\ snd (on_install manifest_missing []) = caches_open CACHE_NAME []
  /\ forall request,
       caches_match request (snd (on_install manifest_missing []))
       = caches_match request [].
Proof.
  apply (failed_precache_stores_nothing manifest_missing [] "/manifest.json").
  - right. left. reflexivity.
  - right. eexists. split; reflexivity.
Defined.

Lemma ios_safari_never_renders_witness :
  InstallButton.rendered
    (fst (InstallButton.run_events None (InstallButton.mounted iphone_safari)
            [InstallButton.BeforeInstallPrompt 1;
             InstallButton.Click (InstallButton.Chose InstallButton.Accepted)]))
  = false
  /\ snd (InstallButton.run_events None (InstallButton.mounted iphone_safari)
            [InstallButton.BeforeInstallPrompt 1;
             InstallButton.Click (InstallButton.Chose InstallButton.Accepted)])
     = [].
Proof.
  apply (ios_safari_never_renders None iphone_safari).
  vm_compute. reflexivity.
Defined.

Lemma installed_hides_for_good_witness :
  InstallButton.rendered
    (fst (InstallButton.run_events None
            (fst (InstallButton.step None prompt_ready InstallButton.AppInstalled))
            [InstallButton.BeforeInstallPrompt 8]))
  = false.
Proof.
  apply (proj1 (proj1 (installed_hides_for_good None prompt_ready
                         [InstallButton.BeforeInstallPrompt 8]) eq_refl)).
Defined.

Lemma answered_prompt_hides_button_witness :
  InstallButton.rendered
    (fst (InstallButton.step None prompt_ready
            (InstallButton.Click (InstallButton.Chose InstallButton.Dismissed))))
  = false.
Proof.
  apply (proj1 (proj1 (answered_prompt_hides_button None prompt_ready
                         InstallButton.Dismissed 8 NonError eq_refl eq_refl)
                  ltac:(discriminate))).
Defined.

Lemma prompts_are_captured_events_witness :
  exists before after,
    snd (InstallButton.run_events None (InstallButton.mounted None)
           [InstallButton.BeforeInstallPrompt 7;
            InstallButton.Click (InstallButton.Chose InstallButton.Dismissed)])
    = before ++ InstallButton.Prompt 7 :: after
    /\ In (InstallButton.PreventDefault 7) before.
Proof.
  apply (prompts_are_captured_events None None).
  right. left. reflexivity.
Defined.

Lemma catalog_payload_reaches_click_witness :
  exists shown,
    on_push (Some (Parses (catalog_entry "A New Spark! ✨"
                             "You've matched with someone special!"
                             "new_match" "/chats?new_match=true"
                             [action "view" "View Match" (Some "/icon-192x192.svg");
                              action "dismiss" "Later" None])))
    = [shown]
    /\ Some (urlToOpen (get_opt (Some (options shown)) "data"))
       = Some (JStr "/chats?new_match=true").
Proof.
  destruct (catalog_payload_reaches_click "new_match"
              (catalog_entry "A New Spark! ✨"
                 "You've matched with someone special!"
                 "new_match" "/chats?new_match=true"
                 [action "view" "View Match" (Some "/icon-192x192.svg");
                  action "dismiss" "Later" None]))
    as (shown & Hshown & _ & _ & _ & _ & _ & _ & _ & Hurl).
  - left. reflexivity.
  - reflexivity.
  - exists shown. split; [exact Hshown|exact Hurl].
Defined.

Lemma registration_leaves_other_records_witness :
  pushSubscriptions
    (snd (handle (register_request "E2" "k2") quiet_net [endpoint_record "E1" "k1"]))
    !! 0 = Some (endpoint_record "E1" "k1").
Proof.
  apply (proj1 (registration_leaves_other_records
                  [("subscription", JObj [("endpoint", JStr "E2"); ("keys", JStr "k2")])]
                  quiet_net [endpoint_record "E1" "k1"]
                  sample_store_reachable eq_refl eq_refl) 0).
  - reflexivity.
  - reflexivity.
Defined.
